(** * CDPBrowserManager (tools/cdp_browser.py): a shallow embedding

    The manager attaches to (or launches) a browser over the Chrome DevTools
    Protocol, resolves a browsing context and, for a fresh context, copies the
    cookies of the pages that are open in the browser into it.

    Layout of this file:
    - [PyStr]: the Python string operations the code relies on
      ([in], [startswith], [lstrip]);
    - cookies, the harvest filter and the de-duplication loop;
    - a state-and-exception monad over the manager's fields, the log and the
      history of external calls, with the environment (HTTP endpoint,
      Playwright, launcher, file system) as a record of oracles;
    - the methods of [CDPBrowserManager], in the order of the source;
    - the properties. *)

From Stdlib Require Import Ascii.
From stdpp Require Import base option list strings gmap.

#[local] Set Warnings "-clear-no-such-hyp".
Local Open Scope Z_scope.

(** ** Python string operations *)

Module PyStr.

(** [s.startswith(p)] *)
Fixpoint startswith (p s : string) : bool :=
  match p, s with
  | EmptyString, _ => true
  | String _ _, EmptyString => false
  | String a p', String b s' =>
      if decide (a = b) then startswith p' s' else false
  end.

(** [sub in s] on strings: [sub] occurs in [s] as a contiguous run. *)
Fixpoint contains (sub s : string) : bool :=
  startswith sub s ||
  match s with
  | EmptyString => false
  | String _ s' => contains sub s'
  end.

(** [s.lstrip(ch)] for a one-character argument. *)
Fixpoint lstrip (ch : Ascii.ascii) (s : string) : string :=
  match s with
  | EmptyString => EmptyString
  | String a s' => if decide (a = ch) then lstrip ch s' else s
  end.

(** [s.endswith(suf)] *)
Fixpoint endswith (suf s : string) : bool :=
  bool_decide (suf = s) ||
  match s with
  | EmptyString => false
  | String _ s' => endswith suf s'
  end.

(** Truth value of a string: non-empty. *)
Definition truthy (s : string) : bool :=
  match s with EmptyString => false | String _ _ => true end.

(** The relations the boolean tests decide. *)
Definition Prefix (p s : string) : Prop := ∃ post, s = p +:+ post.
Definition Substring (sub s : string) : Prop :=
  ∃ pre post, s = pre +:+ sub +:+ post.
Definition Suffix (suf s : string) : Prop := ∃ pre, s = pre +:+ suf.

Lemma app_cons (a : Ascii.ascii) (s t : string) :
  String a s +:+ t = String a (s +:+ t).
Proof. reflexivity. Qed.

Lemma app_nil_l (s : string) : "" +:+ s = s.
Proof. reflexivity. Qed.

Lemma app_nil_r (s : string) : s +:+ "" = s.
Proof. induction s as [|a s IH]; [done|]. by rewrite app_cons, IH. Qed.

Lemma app_assoc (s t u : string) : (s +:+ t) +:+ u = s +:+ t +:+ u.
Proof. induction s as [|a s IH]; [done|]. by rewrite !app_cons, IH. Qed.

Lemma startswith_spec (p s : string) : startswith p s = true ↔ Prefix p s.
Proof.
  revert s. induction p as [|a p IH]; intros s.
  - split; [intros _; by exists s | by destruct s].
  - destruct s as [|b s]; cbn.
    + split; [done | intros [post Hpost]; rewrite app_cons in Hpost;
                     discriminate].
    + case_decide as Hab.
      * subst b. rewrite IH. split.
        -- intros [post ->]. by exists post.
        -- intros [post Hpost]. rewrite app_cons in Hpost.
           injection Hpost as ->. by exists post.
      * split; [done | intros [post Hpost]; rewrite app_cons in Hpost;
                       injection Hpost; congruence].
Qed.

Lemma contains_spec (sub s : string) : contains sub s = true ↔ Substring sub s.
Proof.
  induction s as [|b s IH]; cbn [contains].
  - rewrite orb_false_r, startswith_spec. split.
    + intros [post Hpost]. by exists "", post.
    + intros [pre [post Hs]]. destruct pre as [|c pre]; [by exists post |].
      rewrite app_cons in Hs. discriminate.
  - rewrite orb_true_iff, startswith_spec, IH. split.
    + intros [[post Hpost] | [pre [post Hs]]].
      * by exists "", post.
      * exists (String b pre), post. by rewrite app_cons, Hs.
    + intros [pre [post Hs]]. destruct pre as [|c pre].
      * left. by exists post.
      * right. rewrite app_cons in Hs. injection Hs as -> ->.
        by exists pre, post.
Qed.

Lemma endswith_spec (suf s : string) : endswith suf s = true ↔ Suffix suf s.
Proof.
  induction s as [|b s IH]; cbn [endswith];
    rewrite orb_true_iff, bool_decide_eq_true.
  - split.
    + intros [-> | ?]; [by exists "" | done].
    + intros [pre Hs]. left. destruct pre as [|c pre]; [done|].
      rewrite app_cons in Hs. discriminate.
  - rewrite IH. split.
    + intros [-> | [pre ->]]; [by exists "" | by exists (String b pre)].
    + intros [pre Hs]. destruct pre as [|c pre].
      * left. by rewrite app_nil_l in Hs.
      * right. rewrite app_cons in Hs. injection Hs as -> ->. by exists pre.
Qed.

Lemma lstrip_suffix (ch : Ascii.ascii) (s : string) : Suffix (lstrip ch s) s.
Proof.
  induction s as [|a s [pre IH]]; cbn.
  - by exists "".
  - case_decide.
    + exists (String a pre). by rewrite app_cons, <- IH.
    + by exists "".
Qed.

Lemma Suffix_trans (s t u : string) : Suffix s t → Suffix t u → Suffix s u.
Proof.
  intros [p ->] [q ->]. exists (q +:+ p). by rewrite app_assoc.
Qed.

Lemma Suffix_Substring (s t : string) : Suffix s t → Substring s t.
Proof. intros [p ->]. exists p, "". by rewrite app_nil_r. Qed.

Lemma Substring_refl (s : string) : Substring s s.
Proof. exists "", "". by rewrite app_nil_l, app_nil_r. Qed.

End PyStr.

(** ** Cookies *)

(** A cookie as Playwright reports it: a dictionary.  The code reads the
    keys "name" and "domain" with [dict.get], so either may be absent. *)
Record Cookie := mkCookie {
  cookie_name : option string;
  cookie_value : string;
  cookie_domain : option string;
  cookie_path : string
}.

Global Instance Cookie_eq_dec : EqDecision Cookie.
Proof. solve_decision. Defined.

(** [c.get("domain", "")] *)
Definition get_domain (c : Cookie) : string := default "" (cookie_domain c).

(** The harvest filter of [_create_browser_context]:
    [domain in c.get("domain", "") or c.get("domain", "").lstrip(".") in domain] *)
Definition domain_matches (domain : string) (c : Cookie) : bool :=
  PyStr.contains domain (get_domain c)
  || PyStr.contains (PyStr.lstrip "."%char (get_domain c)) domain.

Definition domain_cookies (domain : string) (cookies : list Cookie) : list Cookie :=
  filter (λ c, domain_matches domain c = true) cookies.

(** The de-duplication key [(cookie.get("name"), cookie.get("domain"))]. *)
Abbreviation CookieKey := (option string * option string)%type.

Definition cookie_key (c : Cookie) : CookieKey := (cookie_name c, cookie_domain c).

(** The de-duplication loop, with its two accumulators [seen] and
    [unique_cookies]. *)
Fixpoint dedup_loop (seen : gset CookieKey) (unique_cookies all_cookies : list Cookie)
  : list Cookie :=
  match all_cookies with
  | [] => unique_cookies
  | cookie :: rest =>
      if decide (cookie_key cookie ∈ seen)
      then dedup_loop seen unique_cookies rest
      else dedup_loop ({[cookie_key cookie]} ∪ seen) (unique_cookies ++ [cookie]) rest
  end.

Definition dedup_cookies (all_cookies : list Cookie) : list Cookie :=
  dedup_loop ∅ [] all_cookies.

(** The replay phase groups the merged cookies in a dictionary
    [cookies_by_domain], keyed by the cookie's domain without leading dots.
    Python dictionaries iterate in insertion order, so the dictionary is an
    association list; [group_append] is
    [if domain not in d: d[domain] = []] followed by [d[domain].append(cookie)]. *)
Fixpoint group_append (domain : string) (cookie : Cookie)
    (groups : list (string * list Cookie)) : list (string * list Cookie) :=
  match groups with
  | [] => [(domain, [cookie])]
  | (d, cs) :: rest =>
      if decide (d = domain) then (d, cs ++ [cookie]) :: rest
      else (d, cs) :: group_append domain cookie rest
  end.

Definition group_by_domain (unique_cookies : list Cookie)
  : list (string * list Cookie) :=
  foldl (λ groups cookie,
           group_append (PyStr.lstrip "."%char (get_domain cookie)) cookie groups)
        [] unique_cookies.

(** ** JSON values, as [response.json()] returns them *)

#[local] Set Warnings "-register-all".

Inductive Json :=
| JNull
| JBool (b : bool)
| JNum (n : Z)
| JStr (s : string)
| JArr (items : list Json)
| JObj (fields : list (string * Json)).

(** Python truth value of a decoded JSON value. *)
Definition json_truthy (v : Json) : bool :=
  match v with
  | JNull => false
  | JBool b => b
  | JNum n => negb (n =? 0)
  | JStr s => PyStr.truthy s
  | JArr items => match items with [] => false | _ => true end
  | JObj fields => match fields with [] => false | _ => true end
  end.

Fixpoint assoc_get (key : string) (fields : list (string * Json)) : option Json :=
  match fields with
  | [] => None
  | (k, v) :: rest => if decide (k = key) then Some v else assoc_get key rest
  end.

Definition json_is_str (v : Json) (s : string) : bool :=
  match v with JStr t => bool_decide (t = s) | _ => false end.

(** ** Exceptions

    Only subclasses of [Exception] are modelled: every [except] clause of the
    source catches [Exception] (or subclasses of it). *)

Inductive RuntimeMsg :=
| NoBrowserFound
| LaunchTimeout (seconds : Z)
| NoWebSocketUrl
| HttpStatus (code : Z) (text : string)
| CdpConnectFailed
| BrowserNotConnected.

Inductive Exn :=
| RuntimeError (msg : RuntimeMsg)
| HttpxConnectError
| HttpxTimeoutException
| HttpxHTTPError
| AttributeError
| TypeError
| ValueError
| OtherError (name : string).

Inductive Res (A : Type) :=
| Ok (a : A)
| Raise (e : Exn).
Arguments Ok {A} a.
Arguments Raise {A} e.

(** [except (httpx.ConnectError, httpx.TimeoutException, httpx.HTTPError)] *)
Definition is_httpx_error (e : Exn) : bool :=
  match e with
  | HttpxConnectError | HttpxTimeoutException | HttpxHTTPError => true
  | _ => false
  end.

(** [v.get(key, dflt)]: only dictionaries have [get]. *)
Definition json_get (v : Json) (key : string) (dflt : Json) : Res Json :=
  match v with
  | JObj fields => Ok (default dflt (assoc_get key fields))
  | _ => Raise AttributeError
  end.

Fixpoint chars (s : string) : list Json :=
  match s with
  | EmptyString => []
  | String a s' => JStr (String a EmptyString) :: chars s'
  end.

(** [for x in v]: a list yields its items, a dictionary its keys, a string
    its characters; the other values are not iterable. *)
Definition json_iter (v : Json) : Res (list Json) :=
  match v with
  | JArr items => Ok items
  | JObj fields => Ok (map (λ kv, JStr (fst kv)) fields)
  | JStr s => Ok (chars s)
  | _ => Raise TypeError
  end.

(** ** Handles, external calls, log *)

Inductive Browser := BrowserId (n : nat).
Inductive BrowserContext := ContextId (n : nat).
Inductive Page := PageId (n : nat).
Inductive Process := ProcessId (n : nat).

Global Instance Browser_eq_dec : EqDecision Browser.
Proof. solve_decision. Defined.
Global Instance Context_eq_dec : EqDecision BrowserContext.
Proof. solve_decision. Defined.
Global Instance Page_eq_dec : EqDecision Page.
Proof. solve_decision. Defined.

(** The keyword arguments [context_options] of [browser.new_context]. *)
Record ContextOptions := mkContextOptions {
  viewport : Z * Z;
  accept_downloads : bool;
  user_agent_option : option string
}.

Record Response := mkResponse {
  status_code : Z;
  json : Res Json;
  text : string
}.

(** The two metadata paths: [/json/version] and [/json]. *)
Inductive Endpoint := JsonVersion | JsonList.

(** The calls the manager makes to its collaborators. *)
Inductive Call :=
| HttpGet (endpoint : Endpoint) (port : option Z) (timeout : Z)
| OsIsFile (path : string)
| OsPathExists (path : string)
| OsGetcwd
| OsMakedirs (dir : string)
| DetectBrowserPaths
| LauncherGetBrowserInfo (path : string)
| LauncherLaunchBrowser (path : string) (port : option Z) (headless : bool)
    (user_data_dir : option string)
| LauncherWaitForBrowserReady (port : option Z) (timeout : Z)
| LauncherCleanup
| Sleep (seconds : Z)
| ConnectOverCdp (ws_url : Json)
| NewContext (b : Browser) (options : ContextOptions)
| NewPage (c : BrowserContext)
| PageGoto (p : Page) (url : string) (timeout : Z)
| PageClose (p : Page)
| ContextCookies (c : BrowserContext)
| ContextAddCookies (c : BrowserContext) (cookies : list Cookie)
| AddInitScript (c : BrowserContext) (path : string)
| ContextClose (c : BrowserContext)
| BrowserClose (b : Browser).

Inductive Outcome := Returned | Raised (e : Exn).

Definition outcome {A : Type} (r : Res A) : Outcome :=
  match r with Ok _ => Returned | Raise e => Raised e end.

Abbreviation Event := (Call * Outcome)%type.

Inductive Level := Debug | Info | Warning | Error.

(** One constructor per [utils.logger] call of the source. *)
Inductive LogMsg :=
| MsgAttachExisting (port : option Z)
| MsgLaunchNew (port : option Z)
| MsgStartupFailed (e : Exn)
| MsgCustomPath (path : string)
| MsgDetected (name version : string)
| MsgBrowserPath (path : string)
| MsgProbeRunning (port : option Z)
| MsgProbeFailed (e : Exn)
| MsgUserDataDir (dir : string)
| MsgProbeFailedContinue
| MsgWsUrl (ws_url : Json)
| MsgWsUrlFailed (e : Exn)
| MsgConnecting (ws_url : Json)
| MsgConnected
| MsgContextCount (n : nat)
| MsgConnectFailed (e : Exn)
| MsgReuseContext (n : nat)
| MsgPagesShareCookies (n : nat)
| MsgExistingCookies (n : nat)
| MsgExistingCookiesFailed (e : Exn)
| MsgUserAgent (ua : string)
| MsgProxyMayNotApply
| MsgNewContextCreated
| MsgPageCookiesFailed (url : string) (e : Exn)
| MsgTargetFailed (e : Exn)
| MsgCookiesCopied (n : nat)
| MsgNoCookiesFound
| MsgFederationFailed (e : Exn)
| MsgStealthAdded (path : string)
| MsgStealthFailed (e : Exn)
| MsgCookiesAdded (n : nat)
| MsgAddCookiesFailed (e : Exn)
| MsgGetCookiesFailed (e : Exn)
| MsgContextClosed
| MsgContextCloseFailed (e : Exn)
| MsgBrowserClosed
| MsgBrowserCloseFailed (e : Exn)
| MsgProcessKept
| MsgCleanupFailed (e : Exn).

(** ** Configuration and environment *)

(** The attributes of the [config] module the manager reads.
    [USER_DATA_DIR_PLATFORM] stands for [config.USER_DATA_DIR % config.PLATFORM]. *)
Record Config := mkConfig {
  CDP_DEBUG_PORT : Z;
  CUSTOM_BROWSER_PATH : string;
  SAVE_LOGIN_STATE : bool;
  USER_DATA_DIR_PLATFORM : string;
  BROWSER_LAUNCH_TIMEOUT : Z;
  AUTO_CLOSE_BROWSER : bool
}.

(** The collaborators (httpx, Playwright, [BrowserLauncher], [os]) answer as
    functions of the history of calls made so far: the environment is
    deterministic but otherwise arbitrary, and may answer the same call
    differently at different times.  [env_netloc] is
    [urllib.parse.urlparse(url).netloc], a pure function that may raise
    [ValueError]; [env_page_context] is the [context] property of a page. *)
Record Env := mkEnv {
  env_http_get : list Event → Endpoint → option Z → Z → Res Response;
  env_isfile : list Event → string → bool;
  env_path_exists : list Event → string → bool;
  env_getcwd : list Event → Res string;
  env_makedirs : list Event → string → Res unit;
  env_netloc : string → Res string;
  env_detect_browser_paths : list Event → Res (list string);
  env_get_browser_info : list Event → string → Res (string * string);
  env_launch_browser :
    list Event → string → option Z → bool → option string → Res Process;
  env_wait_for_browser_ready : list Event → option Z → Z → Res bool;
  env_launcher_cleanup : list Event → Res unit;
  env_sleep : list Event → Z → Res unit;
  env_connect_over_cdp : list Event → Json → Res Browser;
  env_is_connected : list Event → Browser → bool;
  env_contexts : list Event → Browser → list BrowserContext;
  env_pages : list Event → BrowserContext → list Page;
  env_page_context : Page → BrowserContext;
  env_new_context : list Event → Browser → ContextOptions → Res BrowserContext;
  env_new_page : list Event → BrowserContext → Res Page;
  env_goto : list Event → Page → string → Z → Res unit;
  env_page_close : list Event → Page → Res unit;
  env_cookies : list Event → BrowserContext → Res (list Cookie);
  env_add_cookies : list Event → BrowserContext → list Cookie → Res unit;
  env_add_init_script : list Event → BrowserContext → string → Res unit;
  env_context_close : list Event → BrowserContext → Res unit;
  env_browser_close : list Event → Browser → Res unit
}.

(** ** The manager's state *)

(** The fields of [CDPBrowserManager] (with [launcher.browser_process]), the
    log, the history of external calls, and the two locals of
    [_create_browser_context] that are mutated inside [try] blocks
    ([all_cookies], [domains_checked]): they live in the state so that a
    mutation survives an exception raised after it, as in Python. *)
Record State := mkState {
  browser : option Browser;
  browser_context : option BrowserContext;
  debug_port : option Z;
  browser_process : option Process;
  all_cookies : list Cookie;
  domains_checked : gset string;
  log : list (Level * LogMsg);
  history : list Event
}.

(** [CDPBrowserManager.__init__] *)
Definition init : State :=
  mkState None None None None [] ∅ [] [].

Definition set_browser (b : option Browser) (s : State) : State :=
  mkState b (browser_context s) (debug_port s) (browser_process s)
          (all_cookies s) (domains_checked s) (log s) (history s).
Definition set_browser_context (c : option BrowserContext) (s : State) : State :=
  mkState (browser s) c (debug_port s) (browser_process s)
          (all_cookies s) (domains_checked s) (log s) (history s).
Definition set_debug_port (p : option Z) (s : State) : State :=
  mkState (browser s) (browser_context s) p (browser_process s)
          (all_cookies s) (domains_checked s) (log s) (history s).
Definition set_browser_process (p : option Process) (s : State) : State :=
  mkState (browser s) (browser_context s) (debug_port s) p
          (all_cookies s) (domains_checked s) (log s) (history s).
Definition set_all_cookies (l : list Cookie) (s : State) : State :=
  mkState (browser s) (browser_context s) (debug_port s) (browser_process s)
          l (domains_checked s) (log s) (history s).
Definition set_domains_checked (d : gset string) (s : State) : State :=
  mkState (browser s) (browser_context s) (debug_port s) (browser_process s)
          (all_cookies s) d (log s) (history s).
Definition add_log (entry : Level * LogMsg) (s : State) : State :=
  mkState (browser s) (browser_context s) (debug_port s) (browser_process s)
          (all_cookies s) (domains_checked s) (log s ++ [entry]) (history s).
Definition add_event (ev : Event) (s : State) : State :=
  mkState (browser s) (browser_context s) (debug_port s) (browser_process s)
          (all_cookies s) (domains_checked s) (log s) (history s ++ [ev]).

(** ** The monad: state and exceptions *)

Definition M (A : Type) : Type := State → Res A * State.

Definition ret {A : Type} (a : A) : M A := λ s, (Ok a, s).

Definition bind {A B : Type} (m : M A) (k : A → M B) : M B :=
  λ s, match m s with
       | (Ok a, s') => k a s'
       | (Raise e, s') => (Raise e, s')
       end.

Definition raise {A : Type} (e : Exn) : M A := λ s, (Raise e, s).

(** [try: m except Exception as e: handler e] *)
Definition try_except {A : Type} (m : M A) (handler : Exn → M A) : M A :=
  λ s, match m s with
       | (Ok a, s') => (Ok a, s')
       | (Raise e, s') => handler e s'
       end.

(** [try: m finally: fin]: [fin] runs on both exits; an exception of [fin]
    replaces the outcome of [m]. *)
Definition try_finally {A : Type} (m : M A) (fin : M unit) : M A :=
  λ s, match m s with
       | (r, s') =>
           match fin s' with
           | (Ok _, s'') => (r, s'')
           | (Raise e, s'') => (Raise e, s'')
           end
       end.

(** A pure computation that may raise. *)
Definition lift {A : Type} (r : Res A) : M A := λ s, (r, s).

Definition gets {A : Type} (f : State → A) : M A := λ s, (Ok (f s), s).
Definition modify (f : State → State) : M unit := λ s, (Ok tt, f s).

Definition logger (lvl : Level) (msg : LogMsg) : M unit :=
  modify (add_log (lvl, msg)).

(** An external call: the environment answers from the history, and the call
    with its outcome is appended to the history. *)
Definition extern {A : Type} (c : Call) (answer : list Event → Res A) : M A :=
  λ s, let r := answer (history s) in (r, add_event (c, outcome r) s).

(** A property read on a local object: answered from the history, not
    recorded. *)
Definition peek {A : Type} (answer : list Event → A) : M A :=
  λ s, (Ok (answer (history s)), s).

Declare Scope monad_scope.
Delimit Scope monad_scope with monad.
Notation "x <- m ;; k" := (bind m (λ x, k))
  (at level 100, m at next level, right associativity) : monad_scope.
Notation "m ;;; k" := (bind m (λ _, k))
  (at level 100, right associativity) : monad_scope.
Local Open Scope monad_scope.

(** [for x in l: body x] *)
Fixpoint for_each {A : Type} (l : list A) (body : A → M unit) : M unit :=
  match l with
  | [] => ret tt
  | x :: rest => body x ;;; for_each rest body
  end.

(** [if cond: m] *)
Definition when (cond : bool) (m : M unit) : M unit :=
  if cond then m else ret tt.

(** ** The methods of [CDPBrowserManager] *)

(** [os.path.join(path, b)] on POSIX: an absolute [b] replaces [path]; the
    separator is added unless [path] is empty or already ends with it. *)
Definition path_join (path b : string) : string :=
  if PyStr.startswith "/" b then b
  else if negb (PyStr.truthy path) || PyStr.endswith "/" path then path +:+ b
  else path +:+ "/" +:+ b.

Section Manager.

Variable cfg : Config.
Variable env : Env.

Definition http_get (ep : Endpoint) (port : option Z) (timeout : Z) : M Response :=
  extern (HttpGet ep port timeout) (λ h, env_http_get env h ep port timeout).

Definition ws_key : string := "webSocketDebuggerUrl".

(** [_test_cdp_connection] *)
Definition test_cdp_connection (port : option Z) : M bool :=
  try_except
    (response <- http_get JsonVersion port 2 ;;
     if decide (status_code response = 200) then
       data <- lift (json response) ;;
       ws_url <- lift (json_get data ws_key JNull) ;;
       if json_truthy ws_url then
         logger Info (MsgProbeRunning port) ;;;
         ret true
       else ret false
     else ret false)
    (λ e, if is_httpx_error e then ret false
          else logger Warning (MsgProbeFailed e) ;;; ret false).

(** [_get_browser_path] *)
Definition get_browser_path : M string :=
  custom <- (if PyStr.truthy (CUSTOM_BROWSER_PATH cfg)
             then extern (OsIsFile (CUSTOM_BROWSER_PATH cfg))
                    (λ h, Ok (env_isfile env h (CUSTOM_BROWSER_PATH cfg)))
             else ret false) ;;
  if custom then
    logger Info (MsgCustomPath (CUSTOM_BROWSER_PATH cfg)) ;;;
    ret (CUSTOM_BROWSER_PATH cfg)
  else
    browser_paths <- extern DetectBrowserPaths (env_detect_browser_paths env) ;;
    match browser_paths with
    | [] => raise (RuntimeError NoBrowserFound)
    | browser_path :: _ =>
        browser_info <- extern (LauncherGetBrowserInfo browser_path)
                          (λ h, env_get_browser_info env h browser_path) ;;
        let '(browser_name, browser_version) := browser_info in
        logger Info (MsgDetected browser_name browser_version) ;;;
        logger Info (MsgBrowserPath browser_path) ;;;
        ret browser_path
    end.

(** [os.path.join(os.getcwd(), "browser_data", f"cdp_{...}")], on POSIX. *)
Definition profile_dir (cwd : string) : string :=
  path_join (path_join cwd "browser_data") ("cdp_" +:+ USER_DATA_DIR_PLATFORM cfg).

(** [_launch_browser] *)
Definition launch_browser (browser_path : string) (headless : bool) : M unit :=
  user_data_dir <-
    (if SAVE_LOGIN_STATE cfg then
       cwd <- extern OsGetcwd (env_getcwd env) ;;
       extern (OsMakedirs (profile_dir cwd))
         (λ h, env_makedirs env h (profile_dir cwd)) ;;;
       logger Info (MsgUserDataDir (profile_dir cwd)) ;;;
       ret (Some (profile_dir cwd))
     else ret None) ;;
  port <- gets debug_port ;;
  process <- extern (LauncherLaunchBrowser browser_path port headless user_data_dir)
               (λ h, env_launch_browser env h browser_path port headless
                       user_data_dir) ;;
  modify (set_browser_process (Some process)) ;;;
  ready <- extern (LauncherWaitForBrowserReady port (BROWSER_LAUNCH_TIMEOUT cfg))
             (λ h, env_wait_for_browser_ready env h port
                     (BROWSER_LAUNCH_TIMEOUT cfg)) ;;
  if negb ready then
    raise (RuntimeError (LaunchTimeout (BROWSER_LAUNCH_TIMEOUT cfg)))
  else
    extern (Sleep 1) (λ h, env_sleep env h 1) ;;;
    alive <- test_cdp_connection port ;;
    when (negb alive) (logger Warning MsgProbeFailedContinue).

(** [_get_browser_websocket_url] *)
Definition get_browser_websocket_url (port : option Z) : M Json :=
  try_except
    (response <- http_get JsonVersion port 10 ;;
     if decide (status_code response = 200) then
       data <- lift (json response) ;;
       ws_url <- lift (json_get data ws_key JNull) ;;
       if json_truthy ws_url then
         logger Info (MsgWsUrl ws_url) ;;;
         ret ws_url
       else raise (RuntimeError NoWebSocketUrl)
     else raise (RuntimeError (HttpStatus (status_code response) (text response))))
    (λ e, logger Error (MsgWsUrlFailed e) ;;; raise e).

(** [_connect_via_cdp] *)
Definition connect_via_cdp : M unit :=
  try_except
    (port <- gets debug_port ;;
     ws_url <- get_browser_websocket_url port ;;
     logger Info (MsgConnecting ws_url) ;;;
     b <- extern (ConnectOverCdp ws_url) (λ h, env_connect_over_cdp env h ws_url) ;;
     modify (set_browser (Some b)) ;;;
     connected <- peek (λ h, env_is_connected env h b) ;;
     if connected then
       logger Info MsgConnected ;;;
       contexts <- peek (λ h, env_contexts env h b) ;;
       logger Info (MsgContextCount (length contexts))
     else raise (RuntimeError CdpConnectFailed))
    (λ e, logger Error (MsgConnectFailed e) ;;; raise e).

Definition new_page (c : BrowserContext) : M Page :=
  extern (NewPage c) (λ h, env_new_page env h c).
Definition goto (p : Page) (url : string) : M unit :=
  extern (PageGoto p url 5000) (λ h, env_goto env h p url 5000).
Definition page_close (p : Page) : M unit :=
  extern (PageClose p) (λ h, env_page_close env h p).
Definition context_cookies (c : BrowserContext) : M (list Cookie) :=
  extern (ContextCookies c) (λ h, env_cookies env h c).
Definition context_add_cookies (c : BrowserContext) (cookies : list Cookie) : M unit :=
  extern (ContextAddCookies c cookies) (λ h, env_add_cookies env h c cookies).

(** The harvest of one domain: the body of the target loop from
    [temp_page = await browser_context.new_page()] on. *)
Definition harvest_domain (browser_context : BrowserContext) (page_url domain : string)
  : M unit :=
  temp_page <- new_page browser_context ;;
  try_finally
    (try_except
       (goto temp_page page_url ;;;
        cookies <- context_cookies (env_page_context env temp_page) ;;
        modify (λ s, set_all_cookies
                       (all_cookies s ++ domain_cookies domain cookies) s))
       (λ page_error, logger Debug (MsgPageCookiesFailed page_url page_error)))
    (page_close temp_page).

(** The body of [for target in targets].  [page_url.startswith] is only
    reached for a truthy [page_url]; on a value that is not a string it
    raises [AttributeError], outside the inner [try]. *)
Definition harvest_target (browser_context : BrowserContext) (target : Json) : M unit :=
  type <- lift (json_get target "type" JNull) ;;
  if json_is_str type "page" then
    page_url <- lift (json_get target "url" (JStr "")) ;;
    match page_url with
    | JStr url =>
        if PyStr.truthy url && PyStr.startswith "http" url then
          try_except
            (domain <- lift (env_netloc env url) ;;
             checked <- gets domains_checked ;;
             if decide (domain ∈ checked) then ret tt
             else
               modify (λ s, set_domains_checked
                              ({[domain]} ∪ domains_checked s) s) ;;;
               harvest_domain browser_context url domain)
            (λ e, logger Debug (MsgTargetFailed e))
        else ret tt
    | other => if json_truthy other then raise AttributeError else ret tt
    end
  else ret tt.

(** One iteration of [for domain, cookies in cookies_by_domain.items()]. *)
Definition install_domain (browser_context : BrowserContext) (temp_page : Page)
    (entry : string * list Cookie) : M unit :=
  let '(domain, cookies) := entry in
  try_except
    (goto temp_page ("https://" +:+ domain) ;;;
     context_add_cookies browser_context cookies)
    (λ _, try_except
            (goto temp_page ("http://" +:+ domain) ;;;
             context_add_cookies browser_context cookies)
            (λ _, ret tt)).

(** The replay phase: the branch [if unique_cookies:]. *)
Definition replay_cookies (browser_context : BrowserContext) (unique_cookies : list Cookie)
  : M unit :=
  temp_page <- new_page browser_context ;;
  try_finally
    (for_each (group_by_domain unique_cookies)
       (install_domain browser_context temp_page) ;;;
     logger Info (MsgCookiesCopied (length unique_cookies)))
    (page_close temp_page).

(** The cookie federation of a freshly created context: the outer
    [try] of the new-context branch. *)
Definition federate_cookies (browser_context : BrowserContext) : M unit :=
  try_except
    (port <- gets debug_port ;;
     response <- http_get JsonList port 2 ;;
     if decide (status_code response = 200) then
       targets <- lift (json response) ;;
       modify (set_all_cookies []) ;;;
       modify (set_domains_checked ∅) ;;;
       items <- lift (json_iter targets) ;;
       for_each items (harvest_target browser_context) ;;;
       harvested <- gets all_cookies ;;
       match dedup_cookies harvested with
       | [] => logger Warning MsgNoCookiesFound
       | unique_cookies => replay_cookies browser_context unique_cookies
       end
     else ret tt)
    (λ e, logger Warning (MsgFederationFailed e)).

(** Truth value of an optional string / an optional dictionary. *)
Definition opt_truthy (o : option string) : bool :=
  match o with Some s => PyStr.truthy s | None => false end.
Definition proxy_truthy (o : option (list (string * string))) : bool :=
  match o with Some (_ :: _) => true | _ => false end.

Definition context_options (user_agent : option string) : ContextOptions :=
  mkContextOptions (1920, 1080) true
    (if opt_truthy user_agent then user_agent else None).

(** [_create_browser_context] *)
Definition create_browser_context
    (playwright_proxy : option (list (string * string)))
    (user_agent : option string) : M BrowserContext :=
  connected <- gets browser ;;
  match connected with
  | None => raise (RuntimeError BrowserNotConnected)
  | Some b =>
      contexts <- peek (λ h, env_contexts env h b) ;;
      match contexts with
      | browser_context :: _ =>
          logger Info (MsgReuseContext (length contexts)) ;;;
          pages <- peek (λ h, env_pages env h browser_context) ;;
          match pages with
          | page0 :: _ =>
              logger Info (MsgPagesShareCookies (length pages)) ;;;
              try_except
                (cookies <- context_cookies (env_page_context env page0) ;;
                 when (match cookies with [] => false | _ => true end)
                   (logger Info (MsgExistingCookies (length cookies))))
                (λ e, logger Warning (MsgExistingCookiesFailed e))
          | [] => ret tt
          end ;;;
          ret browser_context
      | [] =>
          when (opt_truthy user_agent)
            (logger Info (MsgUserAgent (default "" user_agent))) ;;;
          when (proxy_truthy playwright_proxy)
            (logger Warning MsgProxyMayNotApply) ;;;
          browser_context <- extern (NewContext b (context_options user_agent))
                               (λ h, env_new_context env h b
                                       (context_options user_agent)) ;;
          logger Warning MsgNewContextCreated ;;;
          federate_cookies browser_context ;;;
          ret browser_context
      end
  end.

(** [cleanup] *)
Definition cleanup : M unit :=
  try_except
    (active <- gets browser_context ;;
     match active with
     | Some c =>
         try_finally
           (try_except
              (extern (ContextClose c) (λ h, env_context_close env h c) ;;;
               logger Info MsgContextClosed)
              (λ context_error, logger Warning (MsgContextCloseFailed context_error)))
           (modify (set_browser_context None))
     | None => ret tt
     end ;;;
     connected <- gets browser ;;
     match connected with
     | Some b =>
         try_finally
           (try_except
              (extern (BrowserClose b) (λ h, env_browser_close env h b) ;;;
               logger Info MsgBrowserClosed)
              (λ browser_error, logger Warning (MsgBrowserCloseFailed browser_error)))
           (modify (set_browser None))
     | None => ret tt
     end ;;;
     if AUTO_CLOSE_BROWSER cfg then
       extern LauncherCleanup (env_launcher_cleanup env)
     else logger Info MsgProcessKept)
    (λ e, logger Error (MsgCleanupFailed e)).

(** [launch_and_connect] *)
Definition launch_and_connect
    (playwright_proxy : option (list (string * string)))
    (user_agent : option string) (headless : bool) : M BrowserContext :=
  try_except
    (modify (set_debug_port (Some (CDP_DEBUG_PORT cfg))) ;;;
     port <- gets debug_port ;;
     running <- test_cdp_connection port ;;
     (if running then
        logger Info (MsgAttachExisting port) ;;;
        connect_via_cdp
      else
        logger Info (MsgLaunchNew port) ;;;
        browser_path <- get_browser_path ;;
        launch_browser browser_path headless ;;;
        connect_via_cdp) ;;;
     browser_context <- create_browser_context playwright_proxy user_agent ;;
     modify (set_browser_context (Some browser_context)) ;;;
     ret browser_context)
    (λ e, logger Error (MsgStartupFailed e) ;;;
          cleanup ;;;
          raise e).

(** [add_stealth_script] *)
Definition add_stealth_script (script_path : string) : M unit :=
  active <- gets browser_context ;;
  match active with
  | Some c =>
      found <- extern (OsPathExists script_path)
                 (λ h, Ok (env_path_exists env h script_path)) ;;
      when found
        (try_except
           (extern (AddInitScript c script_path)
              (λ h, env_add_init_script env h c script_path) ;;;
            logger Info (MsgStealthAdded script_path))
           (λ e, logger Warning (MsgStealthFailed e)))
  | None => ret tt
  end.

(** [add_cookies] *)
Definition add_cookies (cookies : list Cookie) : M unit :=
  active <- gets browser_context ;;
  match active with
  | Some c =>
      try_except
        (context_add_cookies c cookies ;;;
         logger Info (MsgCookiesAdded (length cookies)))
        (λ e, logger Warning (MsgAddCookiesFailed e))
  | None => ret tt
  end.

(** [get_cookies] *)
Definition get_cookies : M (list Cookie) :=
  active <- gets browser_context ;;
  match active with
  | Some c =>
      try_except
        (context_cookies c)
        (λ e, logger Warning (MsgGetCookiesFailed e) ;;; ret [])
  | None => ret []
  end.

(** [is_connected] *)
Definition is_connected : M bool :=
  connected <- gets browser ;;
  match connected with
  | Some b => peek (λ h, env_is_connected env h b)
  | None => ret false
  end.

End Manager.

(** ** A scripted environment

    Used to run the methods on concrete inputs.  The metadata endpoint gives
    fixed answers, the launcher finds [paths] and reports [ready] from its
    wait, the controller exposes the contexts [existing], every context
    holds the cookies [jar], and every other call succeeds. *)

Module Demo.

Fixpoint after_slashes (s : string) : string :=
  match s with
  | EmptyString => EmptyString
  | String a s' =>
      match s' with
      | String b rest =>
          if decide (a = "/"%char ∧ b = "/"%char) then rest else after_slashes s'
      | EmptyString => EmptyString
      end
  end.

(** The network location ends at the first of [/], [?] and [#]. *)
Fixpoint until_delimiter (s : string) : string :=
  match s with
  | EmptyString => EmptyString
  | String a s' =>
      if decide (a = "/"%char ∨ a = "?"%char ∨ a = "#"%char) then EmptyString
      else String a (until_delimiter s')
  end.

Definition netloc (url : string) : Res string :=
  Ok (until_delimiter (after_slashes url)).

Definition env (version targets : Res Response) (paths : list string)
    (ready : bool) (existing : list BrowserContext) (jar : list Cookie) : Env :=
  {| env_http_get := λ _ ep _ _,
       match ep with JsonVersion => version | JsonList => targets end;
     env_isfile := λ _ _, false;
     env_path_exists := λ _ _, false;
     env_getcwd := λ _, Ok "/work";
     env_makedirs := λ _ _, Ok tt;
     env_netloc := netloc;
     env_detect_browser_paths := λ _, Ok paths;
     env_get_browser_info := λ _ _, Ok ("Chrome", "120");
     env_launch_browser := λ _ _ _ _ _, Ok (ProcessId 1);
     env_wait_for_browser_ready := λ _ _ _, Ok ready;
     env_launcher_cleanup := λ _, Ok tt;
     env_sleep := λ _ _, Ok tt;
     env_connect_over_cdp := λ _ _, Ok (BrowserId 1);
     env_is_connected := λ _ _, true;
     env_contexts := λ _ _, existing;
     env_pages := λ _ _, [];
     env_page_context := λ _, ContextId 1;
     env_new_context := λ _ _ _, Ok (ContextId 1);
     env_new_page := λ h _, Ok (PageId (length h));
     env_goto := λ _ _ _ _, Ok tt;
     env_page_close := λ _ _, Ok tt;
     env_cookies := λ _ _, Ok jar;
     env_add_cookies := λ _ _ _, Ok tt;
     env_add_init_script := λ _ _ _, Ok tt;
     env_context_close := λ _ _, Ok tt;
     env_browser_close := λ _ _, Ok tt |}.

(** A browser answers on the port. *)
Definition version_ok : Res Response :=
  Ok (mkResponse 200
        (Ok (JObj [("webSocketDebuggerUrl", JStr "ws://localhost:9222/devtools")]))
        "").

(** Nothing listens on the port. *)
Definition refused : Res Response := Raise HttpxConnectError.

Definition cfg (auto_close : bool) : Config :=
  {| CDP_DEBUG_PORT := 9222;
     CUSTOM_BROWSER_PATH := "";
     SAVE_LOGIN_STATE := true;
     USER_DATA_DIR_PLATFORM := "xhs_user_data_dir";
     BROWSER_LAUNCH_TIMEOUT := 60;
     AUTO_CLOSE_BROWSER := auto_close |}.

Definition cookie (name domain : string) : Cookie :=
  mkCookie (Some name) "v" (Some domain) "/".

End Demo.

(** The scripted environment, with handles that report themselves
    disconnected. *)
Definition disconnected_env : Env :=
  let base := Demo.env Demo.version_ok Demo.refused [] false [] [] in
  {| env_http_get := env_http_get base;
     env_isfile := env_isfile base;
     env_path_exists := env_path_exists base;
     env_getcwd := env_getcwd base;
     env_makedirs := env_makedirs base;
     env_netloc := env_netloc base;
     env_detect_browser_paths := env_detect_browser_paths base;
     env_get_browser_info := env_get_browser_info base;
     env_launch_browser := env_launch_browser base;
     env_wait_for_browser_ready := env_wait_for_browser_ready base;
     env_launcher_cleanup := env_launcher_cleanup base;
     env_sleep := env_sleep base;
     env_connect_over_cdp := env_connect_over_cdp base;
     env_is_connected := λ _ _, false;
     env_contexts := env_contexts base;
     env_pages := env_pages base;
     env_page_context := env_page_context base;
     env_new_context := env_new_context base;
     env_new_page := env_new_page base;
     env_goto := env_goto base;
     env_page_close := env_page_close base;
     env_cookies := env_cookies base;
     env_add_cookies := env_add_cookies base;
     env_add_init_script := env_add_init_script base;
     env_context_close := env_context_close base;
     env_browser_close := env_browser_close base |}.

(** ** Properties of the cookie filter and of the de-duplication *)

Section CookieFacts.

Implicit Types (c : Cookie) (l : list Cookie).

Lemma domain_matches_spec (d : string) c :
  domain_matches d c = true ↔
  PyStr.Substring d (get_domain c)
  ∨ PyStr.Substring (PyStr.lstrip "."%char (get_domain c)) d.
Proof.
  unfold domain_matches.
  by rewrite orb_true_iff, !PyStr.contains_spec.
Qed.

Lemma domain_matches_parent (d : string) c :
  get_domain c = d ∨ PyStr.Suffix (get_domain c) d →
  domain_matches d c = true.
Proof.
  rewrite domain_matches_spec. intros [<- | Hsuf].
  - left. apply PyStr.Substring_refl.
  - right. apply PyStr.Suffix_Substring.
    eapply PyStr.Suffix_trans; [apply PyStr.lstrip_suffix | done].
Qed.

Lemma elem_of_domain_cookies (d : string) l c :
  c ∈ domain_cookies d l ↔ c ∈ l ∧ domain_matches d c = true.
Proof. unfold domain_cookies. rewrite list_elem_of_filter. tauto. Qed.

(** The accumulator [unique_cookies] is only ever appended to. *)
Lemma dedup_loop_acc l : ∀ (seen : gset CookieKey) acc,
  dedup_loop seen acc l = acc ++ dedup_loop seen [] l.
Proof.
  induction l as [|c l IH]; intros seen acc; cbn.
  - by rewrite app_nil_r.
  - case_decide; [apply IH|].
    rewrite (IH _ (acc ++ [c])), (IH _ [c]). by rewrite <- app_assoc.
Qed.

Lemma dedup_loop_cons_seen (seen : gset CookieKey) c l :
  cookie_key c ∈ seen → dedup_loop seen [] (c :: l) = dedup_loop seen [] l.
Proof. intros Hin. cbn. by rewrite decide_True. Qed.

Lemma dedup_loop_cons_new (seen : gset CookieKey) c l :
  cookie_key c ∉ seen →
  dedup_loop seen [] (c :: l) = c :: dedup_loop ({[cookie_key c]} ∪ seen) [] l.
Proof.
  intros Hin. cbn. rewrite decide_False by done. by rewrite dedup_loop_acc.
Qed.

(** Per key: what the loop keeps is the first cookie of the input that
    bears the key, unless the key was already seen. *)
Lemma dedup_loop_first (k : CookieKey) l : ∀ seen : gset CookieKey,
  filter (λ c, cookie_key c = k) (dedup_loop seen [] l) =
  if decide (k ∈ seen) then []
  else option_list (head (filter (λ c, cookie_key c = k) l)).
Proof.
  induction l as [|c l IH]; intros seen.
  - cbn. by case_decide.
  - destruct (decide (cookie_key c ∈ seen)) as [Hc|Hc].
    + rewrite dedup_loop_cons_seen, IH by done.
      case_decide as Hk; [done|].
      rewrite (filter_cons_False _ c); [done|]. by intros <-.
    + rewrite dedup_loop_cons_new by done.
      destruct (decide (cookie_key c = k)) as [Heq|Hne].
      * rewrite !(filter_cons_True _ c) by done. rewrite IH.
        rewrite decide_True by set_solver.
        rewrite decide_False by (by rewrite <- Heq). done.
      * rewrite !(filter_cons_False _ c) by done. rewrite IH.
        destruct (decide (k ∈ seen)).
        -- by rewrite decide_True by set_solver.
        -- by rewrite decide_False by set_solver.
Qed.

Lemma size_difference_fresh (k : CookieKey) (X Y : gset CookieKey) :
  k ∉ Y → size (({[k]} ∪ X) ∖ Y) = S (size (X ∖ ({[k]} ∪ Y))).
Proof.
  intros Hk.
  assert (({[k]} ∪ X) ∖ Y = {[k]} ∪ X ∖ ({[k]} ∪ Y)) as ->.
  { apply set_eq. intros k'. destruct (decide (k' = k)); set_solver. }
  rewrite size_union by set_solver. by rewrite size_singleton.
Qed.

Lemma dedup_loop_length l : ∀ seen : gset CookieKey,
  length (dedup_loop seen [] l) =
  size ((list_to_set (cookie_key <$> l) : gset CookieKey) ∖ seen).
Proof.
  induction l as [|c l IH]; intros seen.
  - cbn. by rewrite difference_disjoint_L, size_empty by set_solver.
  - rewrite fmap_cons, list_to_set_cons.
    destruct (decide (cookie_key c ∈ seen)) as [Hc|Hc].
    + rewrite dedup_loop_cons_seen, IH by done. f_equal. set_solver.
    + rewrite dedup_loop_cons_new by done. cbn [length]. rewrite IH.
      by rewrite size_difference_fresh.
Qed.

Lemma dedup_loop_fresh l : ∀ (seen : gset CookieKey) c,
  c ∈ dedup_loop seen [] l → cookie_key c ∉ seen.
Proof.
  induction l as [|c0 l IH]; intros seen c.
  - by intros ?%elem_of_nil.
  - destruct (decide (cookie_key c0 ∈ seen)) as [Hc|Hc].
    + rewrite dedup_loop_cons_seen by done. apply IH.
    + rewrite dedup_loop_cons_new by done.
      intros [-> | Hin]%elem_of_cons; [done|].
      apply IH in Hin. set_solver.
Qed.

Lemma dedup_loop_NoDup l : ∀ seen : gset CookieKey,
  NoDup (cookie_key <$> dedup_loop seen [] l).
Proof.
  induction l as [|c l IH]; intros seen.
  - constructor.
  - destruct (decide (cookie_key c ∈ seen)) as [Hc|Hc].
    + rewrite dedup_loop_cons_seen by done. apply IH.
    + rewrite dedup_loop_cons_new by done. rewrite fmap_cons.
      constructor; [|apply IH].
      intros (c' & Hkey & Hin)%list_elem_of_fmap.
      apply dedup_loop_fresh in Hin.
      apply Hin, elem_of_union_l, elem_of_singleton. by symmetry.
Qed.

(** A list whose keys are distinct and unseen passes through unchanged. *)
Lemma dedup_loop_id l : ∀ seen : gset CookieKey,
  NoDup (cookie_key <$> l) →
  (∀ c, c ∈ l → cookie_key c ∉ seen) →
  dedup_loop seen [] l = l.
Proof.
  induction l as [|c l IH]; intros seen Hnd Hfresh; [done|].
  rewrite fmap_cons in Hnd. apply NoDup_cons in Hnd as [Hc Hnd].
  rewrite dedup_loop_cons_new by (apply Hfresh; left).
  f_equal. apply IH; [done|].
  intros c' Hin. apply not_elem_of_union. split.
  - intros Heq%elem_of_singleton. apply Hc.
    apply list_elem_of_fmap. eauto.
  - apply Hfresh. by right.
Qed.

Lemma dedup_loop_sublist l : ∀ seen : gset CookieKey, dedup_loop seen [] l `sublist_of` l.
Proof.
  induction l as [|c l IH]; intros seen; [done|].
  destruct (decide (cookie_key c ∈ seen)) as [Hc|Hc].
  - rewrite dedup_loop_cons_seen by done. by apply sublist_cons.
  - rewrite dedup_loop_cons_new by done. by apply sublist_skip.
Qed.

End CookieFacts.

(** ** Reasoning about runs *)

Section Runs.

Context {A B : Type}.

Lemma bind_logger lvl msg (k : unit → M B) s :
  bind (logger lvl msg) k s = k tt (add_log (lvl, msg) s).
Proof. reflexivity. Qed.

Lemma bind_extern (c : Call) (answer : list Event → Res A) (k : A → M B) s :
  bind (extern c answer) k s =
  match answer (history s) with
  | Ok a => k a (add_event (c, Returned) s)
  | Raise e => (Raise e, add_event (c, Raised e) s)
  end.
Proof. unfold bind, extern. by destruct (answer (history s)). Qed.

Lemma bind_ok (m : M A) (k : A → M B) s a s' :
  m s = (Ok a, s') → bind m k s = k a s'.
Proof. unfold bind. by intros ->. Qed.

Lemma bind_raise (m : M A) (k : A → M B) s e s' :
  m s = (Raise e, s') → bind m k s = (Raise e, s').
Proof. unfold bind. by intros ->. Qed.

Lemma try_except_ok (m : M A) (h : Exn → M A) s a s' :
  m s = (Ok a, s') → try_except m h s = (Ok a, s').
Proof. unfold try_except. by intros ->. Qed.

Lemma try_except_raise (m : M A) (h : Exn → M A) s e s' :
  m s = (Raise e, s') → try_except m h s = h e s'.
Proof. unfold try_except. by intros ->. Qed.

End Runs.

(** [grows proj P m]: whatever the state, [m] only appends to the list
    [proj] of the state (the history of calls, or the log), and every item
    it appends satisfies [P]. *)
Definition grows {X A : Type} (proj : State → list X) (P : X → Prop) (m : M A)
  : Prop :=
  ∀ s, ∃ xs, proj (m s).2 = proj s ++ xs ∧ Forall P xs.

Abbreviation emits := (grows history).
Abbreviation logs := (grows log).

Section Grows.

Context {X : Type} (proj : State → list X) (P : X → Prop).

Lemma grows_silent {A : Type} (m : M A) :
  (∀ s, proj (m s).2 = proj s) → grows proj P m.
Proof. intros H s. exists []. by rewrite H, app_nil_r. Qed.

Lemma grows_ret {A : Type} (a : A) : grows proj P (ret a).
Proof. by apply grows_silent. Qed.

Lemma grows_raise {A : Type} (e : Exn) : grows proj P (raise (A:=A) e).
Proof. by apply grows_silent. Qed.

Lemma grows_lift {A : Type} (r : Res A) : grows proj P (lift r).
Proof. by apply grows_silent. Qed.

Lemma grows_gets {A : Type} (f : State → A) : grows proj P (gets f).
Proof. by apply grows_silent. Qed.

Lemma grows_peek {A : Type} (f : list Event → A) : grows proj P (peek f).
Proof. by apply grows_silent. Qed.

Lemma grows_modify (f : State → State) :
  (∀ s, proj (f s) = proj s) → grows proj P (modify f).
Proof. intros H. by apply grows_silent. Qed.

Lemma grows_bind {A B : Type} (m : M A) (k : A → M B) :
  grows proj P m → (∀ a, grows proj P (k a)) → grows proj P (bind m k).
Proof.
  intros Hm Hk s. unfold bind. destruct (Hm s) as (xs & Hxs & HP).
  destruct (m s) as [[a|e] s1]; cbn in *.
  - destruct (Hk a s1) as (xs' & Hxs' & HP').
    exists (xs ++ xs'). split; [|by apply Forall_app].
    by rewrite Hxs', Hxs, app_assoc.
  - by exists xs.
Qed.

Lemma grows_try_except {A : Type} (m : M A) (h : Exn → M A) :
  grows proj P m → (∀ e, grows proj P (h e)) → grows proj P (try_except m h).
Proof.
  intros Hm Hh s. unfold try_except. destruct (Hm s) as (xs & Hxs & HP).
  destruct (m s) as [[a|e] s1]; cbn in *.
  - by exists xs.
  - destruct (Hh e s1) as (xs' & Hxs' & HP').
    exists (xs ++ xs'). split; [|by apply Forall_app].
    by rewrite Hxs', Hxs, app_assoc.
Qed.

Lemma grows_try_finally {A : Type} (m : M A) (fin : M unit) :
  grows proj P m → grows proj P fin → grows proj P (try_finally m fin).
Proof.
  intros Hm Hfin s. unfold try_finally. destruct (Hm s) as (xs & Hxs & HP).
  destruct (m s) as [r s1]; cbn in *.
  destruct (Hfin s1) as (xs' & Hxs' & HP').
  exists (xs ++ xs'). split; [|by apply Forall_app].
  destruct (fin s1) as [[[]|e] s2]; cbn in *; by rewrite Hxs', Hxs, app_assoc.
Qed.

Lemma grows_for_each {A : Type} (l : list A) (body : A → M unit) :
  (∀ x, grows proj P (body x)) → grows proj P (for_each l body).
Proof.
  intros Hbody. induction l as [|x l IH]; cbn.
  - apply grows_ret.
  - apply grows_bind; [apply Hbody | by intros _].
Qed.

Lemma grows_when (cond : bool) (m : M unit) :
  grows proj P m → grows proj P (when cond m).
Proof. destruct cond; [done | intros _; apply grows_ret]. Qed.

Lemma grows_run {A : Type} (m : M A) s r s' :
  grows proj P m → m s = (r, s') →
  ∃ xs, proj s' = proj s ++ xs ∧ Forall P xs.
Proof. intros Hm Hrun. specialize (Hm s). by rewrite Hrun in Hm. Qed.

End Grows.

(** The two primitives that append: [extern] to the history, [logger] to
    the log. *)
Lemma emits_logger (P : Event → Prop) lvl msg : emits P (logger lvl msg).
Proof. by apply grows_silent. Qed.

Lemma emits_extern {A : Type} (P : Event → Prop) (c : Call)
    (answer : list Event → Res A) :
  (∀ o, P (c, o)) → emits P (extern c answer).
Proof.
  intros H s. exists [(c, outcome (answer (history s)))]. split; [done|].
  by constructor.
Qed.

Lemma logs_logger (P : Level * LogMsg → Prop) lvl msg :
  P (lvl, msg) → logs P (logger lvl msg).
Proof. intros H s. exists [(lvl, msg)]. split; [done|]. by constructor. Qed.

Lemma logs_extern {A : Type} (P : Level * LogMsg → Prop) (c : Call)
    (answer : list Event → Res A) :
  logs P (extern c answer).
Proof. by apply grows_silent. Qed.

(** Goals [grows proj P m] are solved by following the structure of [m];
    what is left are the side conditions on appended items and the calls of
    other methods. *)
Ltac grows_step :=
  lazymatch goal with
  | |- grows _ _ (bind _ _) => apply grows_bind; [|intros ?]
  | |- grows _ _ (try_except _ _) => apply grows_try_except; [|intros ?]
  | |- grows _ _ (try_finally _ _) => apply grows_try_finally
  | |- grows _ _ (for_each _ _) => apply grows_for_each; intros ?
  | |- grows _ _ (when _ _) => apply grows_when
  | |- grows _ _ (ret _) => apply grows_ret
  | |- grows _ _ (raise _) => apply grows_raise
  | |- grows _ _ (lift _) => apply grows_lift
  | |- grows _ _ (gets _) => apply grows_gets
  | |- grows _ _ (peek _) => apply grows_peek
  | |- grows _ _ (modify _) => apply grows_modify; intros ?; reflexivity
  | |- grows history _ (logger _ _) => apply emits_logger
  | |- grows log _ (extern _ _) => apply logs_extern
  | |- grows _ _ (match ?x with _ => _ end) => destruct x
  | |- grows _ _ (if ?x then _ else _) => destruct x
  end.

(** ** The readiness probe *)

(** What a metadata answer must look like for the probe to say "ready". *)
Definition ready_answer (r : Res Response) : Prop :=
  ∃ response fields ws_url,
    r = Ok response
    ∧ status_code response = 200
    ∧ json response = Ok (JObj fields)
    ∧ assoc_get ws_key fields = Some ws_url
    ∧ json_truthy ws_url = true.

Lemma test_cdp_connection_spec env port s :
  ∃ ready s',
    test_cdp_connection env port s = (Ok ready, s')
    ∧ history s' =
        history s ++ [(HttpGet JsonVersion port 2,
                       outcome (env_http_get env (history s) JsonVersion port 2))]
    ∧ browser s' = browser s
    ∧ browser_context s' = browser_context s
    ∧ debug_port s' = debug_port s
    ∧ (ready = true ↔ ready_answer (env_http_get env (history s) JsonVersion port 2)).
Proof.
  unfold test_cdp_connection, try_except, bind, http_get, extern, lift, ready_answer.
  destruct (env_http_get env (history s) JsonVersion port 2)
    as [[code body txt]|e] eqn:Hget; cbn.
  - case_decide as Hcode; cbn.
    + destruct body as [data|e]; cbn.
      * destruct data as [| | | | |fields]; cbn;
          try (eexists _, _; split; [reflexivity|]; cbn;
               repeat split; try done; intros (?&?&?&?&?&?&?&?); simplify_eq).
        destruct (assoc_get ws_key fields) as [ws_url|] eqn:Hws; cbn.
        -- destruct (json_truthy ws_url) eqn:Htruthy; cbn.
           ++ eexists _, _. split; [reflexivity|]. cbn. repeat split; try done.
              intros _. by exists (mkResponse code (Ok (JObj fields)) txt), fields, ws_url.
           ++ eexists _, _. split; [reflexivity|]. cbn. repeat split; try done.
              intros (?&?&?&?&?&?&?&?); simplify_eq/=; congruence.
        -- eexists _, _. split; [reflexivity|]. cbn. repeat split; try done.
           intros (?&?&?&?&?&?&?&?); simplify_eq/=; congruence.
      * destruct (is_httpx_error e); cbn;
          (eexists _, _; split; [reflexivity|]; cbn;
           repeat split; try done; intros (?&?&?&?&?&?&?&?); simplify_eq).
    + eexists _, _. split; [reflexivity|]. cbn. repeat split; try done.
      intros (?&?&?&?&?&?&?&?); simplify_eq/=.
  - destruct (is_httpx_error e); cbn;
      (eexists _, _; split; [reflexivity|]; cbn;
       repeat split; try done; intros (?&?&?&?&?&?&?&?); simplify_eq).
Qed.

(** The probe reads nothing of the state but the history. *)
Lemma test_cdp_connection_result env port s1 s2 :
  history s1 = history s2 →
  (test_cdp_connection env port s1).1 = (test_cdp_connection env port s2).1.
Proof.
  intros Hh.
  destruct (test_cdp_connection_spec env port s1) as (r1 & ? & -> & _ & _ & _ & _ & H1).
  destruct (test_cdp_connection_spec env port s2) as (r2 & ? & -> & _ & _ & _ & _ & H2).
  cbn. f_equal. rewrite Hh in H1. rewrite <- H2 in H1.
  destruct r1, r2; try done.
  - symmetry. by apply H1.
  - by apply H1.
Qed.

(** ** Cleanup *)

(** The calls [cleanup] makes from a state, in order. *)
Definition cleanup_calls (cfg : Config) (s : State) : list Call :=
  match browser_context s with Some c => [ContextClose c] | None => [] end
  ++ match browser s with Some b => [BrowserClose b] | None => [] end
  ++ (if AUTO_CLOSE_BROWSER cfg then [LauncherCleanup] else []).

Lemma cleanup_spec cfg env s :
  ∃ s' evs,
    cleanup cfg env s = (Ok tt, s')
    ∧ history s' = history s ++ evs
    ∧ map fst evs = cleanup_calls cfg s
    ∧ browser s' = None
    ∧ browser_context s' = None
    ∧ debug_port s' = debug_port s.
Proof.
  unfold cleanup, cleanup_calls, try_except, try_finally, bind, gets, extern,
    logger, modify, ret.
  destruct s as [b c port proc ac dc lg h]; cbn.
  destruct c as [c|], b as [b|]; cbn;
    repeat match goal with
    | |- context [env_context_close ?e ?h ?c] =>
        destruct (env_context_close e h c) as [[]|?]; cbn
    | |- context [env_browser_close ?e ?h ?c] =>
        destruct (env_browser_close e h c) as [[]|?]; cbn
    end;
    destruct (AUTO_CLOSE_BROWSER cfg); cbn;
    repeat match goal with
    | |- context [env_launcher_cleanup ?e ?h] =>
        destruct (env_launcher_cleanup e h) as [[]|?]; cbn
    end;
    eexists _, _; (split; [reflexivity|]); cbn;
    (split; [rewrite <- ?app_assoc; cbn; try reflexivity;
             by rewrite ?app_nil_r |]);
    done.
Qed.

(** C8.  The readiness probe [_test_cdp_connection] never raises: from every
    state and for every environment it returns a boolean.  It makes exactly
    one request, [GET /json/version] with timeout 2, whatever the answer (no
    retry).  It returns [true] exactly when the answer has status 200 and a
    JSON object body whose [webSocketDebuggerUrl] field is present and truthy
    (non-empty); in particular it returns [false] when the request raises
    (connection refused, timeout, any other exception) and when the body
    cannot be decoded. *)
Theorem probe_never_raises_single_request env port s :
  ∃ ready s',
    test_cdp_connection env port s = (Ok ready, s')
    ∧ history s' =
        history s ++ [(HttpGet JsonVersion port 2,
                       outcome (env_http_get env (history s) JsonVersion port 2))]
    ∧ (ready = true ↔ ready_answer (env_http_get env (history s) JsonVersion port 2))
    ∧ (∀ e, env_http_get env (history s) JsonVersion port 2 = Raise e →
            ready = false)
    ∧ (∀ response e,
         env_http_get env (history s) JsonVersion port 2 = Ok response →
         json response = Raise e → ready = false).
Proof.
  destruct (test_cdp_connection_spec env port s)
    as (ready & s' & Hrun & Hh & _ & _ & _ & Hready).
  exists ready, s'. repeat split; try done; try apply Hready.
  - intros e He. destruct ready; [|done].
    destruct Hready as [Hr _]. destruct (Hr eq_refl) as (?&?&?&?&_). congruence.
  - intros response e Hresp He. destruct ready; [|done].
    destruct Hready as [Hr _]. destruct (Hr eq_refl) as (?&?&?&?&?&?&_).
    congruence.
Qed.

(** C7.  [cleanup] never raises, from any state (so also when called again,
    and after partial or no initialisation).  Its calls are, in this order:
    close the active context (if one is held), close the browser (if one is
    held), and terminate the launcher's process exactly when
    [AUTO_CLOSE_BROWSER] is set.  The list of calls does not depend on the
    outcome of any of them: each step runs whether or not the previous one
    failed.  A second [cleanup] right after the first closes nothing again. *)
Theorem cleanup_never_raises_ordered cfg env s :
  ∃ s1 evs1 s2 evs2,
    cleanup cfg env s = (Ok tt, s1)
    ∧ history s1 = history s ++ evs1
    ∧ map fst evs1 = cleanup_calls cfg s
    ∧ cleanup cfg env s1 = (Ok tt, s2)
    ∧ history s2 = history s1 ++ evs2
    ∧ map fst evs2 = (if AUTO_CLOSE_BROWSER cfg then [LauncherCleanup] else []).
Proof.
  destruct (cleanup_spec cfg env s) as (s1 & evs1 & Hrun1 & Hh1 & Hc1 & Hb & Hc & _).
  destruct (cleanup_spec cfg env s1) as (s2 & evs2 & Hrun2 & Hh2 & Hc2 & _).
  exists s1, evs1, s2, evs2. repeat split; try done.
  rewrite Hc2. unfold cleanup_calls. by rewrite Hb, Hc.
Qed.

(** C10.  After [cleanup] returns, [browser_context] and [browser] are both
    [None], whatever the close calls did.  Hence [is_connected] is false, and
    [add_cookies], [get_cookies] and [add_stealth_script] change nothing and
    call nothing; [get_cookies] returns the empty list. *)
Theorem cleanup_clears_fields cfg env s :
  ∃ s',
    cleanup cfg env s = (Ok tt, s')
    ∧ browser s' = None
    ∧ browser_context s' = None
    ∧ is_connected env s' = (Ok false, s')
    ∧ (∀ cookies, add_cookies env cookies s' = (Ok tt, s'))
    ∧ get_cookies env s' = (Ok [], s')
    ∧ (∀ script_path, add_stealth_script env script_path s' = (Ok tt, s')).
Proof.
  destruct (cleanup_spec cfg env s) as (s' & evs & Hrun & _ & _ & Hb & Hc & _).
  exists s'. split; [done|]. split; [done|]. split; [done|].
  unfold is_connected, add_cookies, get_cookies, add_stealth_script, bind, gets.
  rewrite Hb, Hc. done.
Qed.

(** ** Which calls each method can make *)

Inductive CallKind :=
| KHttp        (* the metadata endpoint *)
| KLaunch      (* path detection and launch: file system, launcher, sleep *)
| KTerminate   (* the launcher's cleanup *)
| KPlaywright  (* the controller: contexts, pages, cookies *)
| KFile.       (* the stealth script lookup *)

Definition kind (c : Call) : CallKind :=
  match c with
  | HttpGet _ _ _ => KHttp
  | OsIsFile _ | OsGetcwd | OsMakedirs _ | DetectBrowserPaths
  | LauncherGetBrowserInfo _ | LauncherLaunchBrowser _ _ _ _
  | LauncherWaitForBrowserReady _ _ | Sleep _ => KLaunch
  | LauncherCleanup => KTerminate
  | OsPathExists _ => KFile
  | ConnectOverCdp _ | NewContext _ _ | NewPage _ | PageGoto _ _ _ | PageClose _
  | ContextCookies _ | ContextAddCookies _ _ | AddInitScript _ _
  | ContextClose _ | BrowserClose _ => KPlaywright
  end.

Definition of_kinds (ks : list CallKind) (ev : Event) : Prop := kind ev.1 ∈ ks.

Ltac solve_kind :=
  unfold of_kinds; cbn; first [assumption | by repeat constructor].

Ltac emits_call :=
  lazymatch goal with
  | |- grows history _ (extern _ _) => apply emits_extern; intros ?; solve_kind
  | |- _ => grows_step
  end.

Section EmitsMethods.

Variable cfg : Config.
Variable env : Env.
Variable ks : list CallKind.

Lemma emits_test_cdp_connection port :
  KHttp ∈ ks → emits (of_kinds ks) (test_cdp_connection env port).
Proof. intros ?. unfold test_cdp_connection, http_get. repeat emits_call. Qed.

Lemma emits_get_browser_path :
  KLaunch ∈ ks → emits (of_kinds ks) (get_browser_path cfg env).
Proof. intros ?. unfold get_browser_path. repeat emits_call. Qed.

Lemma emits_launch_browser browser_path headless :
  KHttp ∈ ks → KLaunch ∈ ks →
  emits (of_kinds ks) (launch_browser cfg env browser_path headless).
Proof.
  intros ??. unfold launch_browser. repeat emits_call.
  by apply emits_test_cdp_connection.
Qed.

Lemma emits_get_browser_websocket_url port :
  KHttp ∈ ks → emits (of_kinds ks) (get_browser_websocket_url env port).
Proof. intros ?. unfold get_browser_websocket_url, http_get. repeat emits_call. Qed.

Lemma emits_connect_via_cdp :
  KHttp ∈ ks → KPlaywright ∈ ks → emits (of_kinds ks) (connect_via_cdp env).
Proof.
  intros ??. unfold connect_via_cdp. repeat emits_call.
  by apply emits_get_browser_websocket_url.
Qed.

Lemma emits_harvest_domain c page_url domain :
  KPlaywright ∈ ks → emits (of_kinds ks) (harvest_domain env c page_url domain).
Proof.
  intros ?. unfold harvest_domain, new_page, goto, context_cookies, page_close.
  repeat emits_call.
Qed.

Lemma emits_harvest_target c target :
  KPlaywright ∈ ks → emits (of_kinds ks) (harvest_target env c target).
Proof.
  intros ?. unfold harvest_target. repeat emits_call;
    by apply emits_harvest_domain.
Qed.

Lemma emits_install_domain c p entry :
  KPlaywright ∈ ks → emits (of_kinds ks) (install_domain env c p entry).
Proof.
  intros ?. unfold install_domain, goto, context_add_cookies.
  repeat emits_call.
Qed.

Lemma emits_replay_cookies c unique_cookies :
  KPlaywright ∈ ks → emits (of_kinds ks) (replay_cookies env c unique_cookies).
Proof.
  intros ?. unfold replay_cookies, new_page, page_close.
  repeat emits_call. by apply emits_install_domain.
Qed.

Lemma emits_federate_cookies c :
  KHttp ∈ ks → KPlaywright ∈ ks → emits (of_kinds ks) (federate_cookies env c).
Proof.
  intros ??. unfold federate_cookies, http_get. repeat emits_call;
    first [by apply emits_harvest_target | by apply emits_replay_cookies].
Qed.

Lemma emits_create_browser_context playwright_proxy user_agent :
  KHttp ∈ ks → KPlaywright ∈ ks →
  emits (of_kinds ks) (create_browser_context env playwright_proxy user_agent).
Proof.
  intros ??. unfold create_browser_context, context_cookies.
  repeat emits_call. by apply emits_federate_cookies.
Qed.

Lemma emits_cleanup :
  KPlaywright ∈ ks → KTerminate ∈ ks → emits (of_kinds ks) (cleanup cfg env).
Proof. intros ??. unfold cleanup. repeat emits_call. Qed.

End EmitsMethods.

Lemma of_kinds_not (ks : list CallKind) (k : CallKind) (ev : Event) :
  k ∉ ks → of_kinds ks ev → kind ev.1 ≠ k.
Proof. unfold of_kinds. intros Hk Hin Heq. by rewrite Heq in Hin. Qed.

Lemma Forall_of_kinds_not (ks : list CallKind) (k : CallKind) (evs : list Event) :
  k ∉ ks → Forall (of_kinds ks) evs → Forall (λ ev, kind ev.1 ≠ k) evs.
Proof.
  intros Hk HF. eapply Forall_impl; [done|]. intros ev. by apply of_kinds_not.
Qed.

Global Instance CallKind_eq_dec : EqDecision CallKind.
Proof. solve_decision. Defined.

Ltac not_kind :=
  let Hin := fresh in
  intros Hin;
  repeat (apply elem_of_cons in Hin as [Hin|Hin]; [discriminate|]);
  by apply elem_of_nil in Hin.

(** ** The connection step *)

Lemma get_browser_websocket_url_spec env port s :
  ∃ r s' o,
    get_browser_websocket_url env port s = (r, s')
    ∧ history s' = history s ++ [(HttpGet JsonVersion port 10, o)]
    ∧ browser s' = browser s
    ∧ browser_context s' = browser_context s
    ∧ debug_port s' = debug_port s.
Proof.
  unfold get_browser_websocket_url, try_except, bind, http_get, extern, lift.
  destruct (env_http_get env (history s) JsonVersion port 10)
    as [[code body txt]|e]; cbn; [|by eexists _, _, _].
  case_decide; cbn; [|by eexists _, _, _].
  destruct body as [data|e]; cbn; [|by eexists _, _, _].
  destruct data as [| | | | |fields]; cbn; try by eexists _, _, _.
  destruct (json_truthy (default JNull (assoc_get ws_key fields))); cbn;
    by eexists _, _, _.
Qed.

(** [_connect_via_cdp] starts with the fetch of the handshake address; all
    its other calls go to the controller. *)
Lemma connect_via_cdp_trace env s :
  ∃ o evs,
    history (connect_via_cdp env s).2 =
      history s ++ (HttpGet JsonVersion (debug_port s) 10, o) :: evs
    ∧ Forall (of_kinds [KPlaywright]) evs.
Proof.
  unfold connect_via_cdp, try_except.
  rewrite (bind_ok (gets debug_port) _ s (debug_port s) s eq_refl).
  destruct (get_browser_websocket_url_spec env (debug_port s) s)
    as (r & s1 & o & Hrun & Hh & _).
  destruct r as [ws_url|e].
  - rewrite (bind_ok _ _ _ _ _ Hrun).
    match goal with
    | |- context [bind (logger ?l ?m) ?k] =>
        assert (emits (of_kinds [KPlaywright]) (bind (logger l m) k)) as Hk
          by repeat emits_call;
        destruct (Hk s1) as (evs & Hevs & HP);
        destruct (bind (logger l m) k s1) as [[[]|e] s2]
    end; cbn in *; exists o, evs; by rewrite Hevs, Hh, <- app_assoc.
  - rewrite (bind_raise _ _ _ _ _ Hrun). cbn. exists o, []. by rewrite Hh.
Qed.

(** ** [launch_and_connect], piece by piece *)

Section Acquire.

Variable cfg : Config.
Variable env : Env.
Variable playwright_proxy : option (list (string * string)).
Variable user_agent : option string.
Variable headless : bool.

Local Abbreviation port := (Some (CDP_DEBUG_PORT cfg)).

(** The [except] clause of [launch_and_connect]. *)
Definition startup_failed (e : Exn) : M BrowserContext :=
  logger Error (MsgStartupFailed e) ;;; cleanup cfg env ;;; raise e.

(** The branch on the probe's answer: attach, or launch and attach. *)
Definition reach_browser (running : bool) : M unit :=
  if running then
    logger Info (MsgAttachExisting port) ;;;
    connect_via_cdp env
  else
    logger Info (MsgLaunchNew port) ;;;
    browser_path <- get_browser_path cfg env ;;
    launch_browser cfg env browser_path headless ;;;
    connect_via_cdp env.

(** The [try] block of [launch_and_connect] after the probe has answered. *)
Definition after_probe (running : bool) : M BrowserContext :=
  reach_browser running ;;;
  browser_context <- create_browser_context env playwright_proxy user_agent ;;
  modify (set_browser_context (Some browser_context)) ;;;
  ret browser_context.

Lemma launch_and_connect_after_probe s :
  ∃ running s1,
    test_cdp_connection env port (set_debug_port port s) = (Ok running, s1)
    ∧ history s1 =
        history s ++ [(HttpGet JsonVersion port 2,
                       outcome (env_http_get env (history s) JsonVersion port 2))]
    ∧ debug_port s1 = port
    ∧ (running = true ↔
       ready_answer (env_http_get env (history s) JsonVersion port 2))
    ∧ launch_and_connect cfg env playwright_proxy user_agent headless s =
        try_except (after_probe running) startup_failed s1.
Proof.
  destruct (test_cdp_connection_spec env port (set_debug_port port s))
    as (running & s1 & Hrun & Hh & _ & _ & Hport & Hready).
  exists running, s1. repeat split; try done; try apply Hready.
  unfold launch_and_connect, after_probe, reach_browser, startup_failed,
    try_except.
  rewrite (bind_ok (modify _) _ s tt (set_debug_port port s) eq_refl).
  rewrite (bind_ok (gets debug_port) _ (set_debug_port port s) port
             (set_debug_port port s) eq_refl).
  rewrite (bind_ok _ _ _ _ _ Hrun). done.
Qed.

Lemma emits_startup_failed e :
  emits (of_kinds [KPlaywright; KTerminate]) (startup_failed e).
Proof.
  unfold startup_failed. repeat emits_call. by apply emits_cleanup; solve_kind.
Qed.

(** What follows the connection: context resolution and the assignment. *)
Lemma emits_resolve :
  emits (of_kinds [KHttp; KPlaywright])
    (browser_context <- create_browser_context env playwright_proxy user_agent ;;
     modify (set_browser_context (Some browser_context)) ;;;
     ret browser_context).
Proof.
  repeat emits_call. by apply emits_create_browser_context; solve_kind.
Qed.

End Acquire.

Lemma launcher_cleanup_in_cleanup_calls cfg s :
  LauncherCleanup ∈ cleanup_calls cfg s ↔ AUTO_CLOSE_BROWSER cfg = true.
Proof.
  unfold cleanup_calls. rewrite !elem_of_app.
  destruct (browser_context s), (browser s), (AUTO_CLOSE_BROWSER cfg);
    rewrite ?list_elem_of_singleton, ?elem_of_nil; naive_solver.
Qed.

(** The [except] clause of [launch_and_connect] runs [cleanup] and raises
    the exception it was given. *)
Lemma startup_failed_spec cfg env e s :
  ∃ s' evs,
    startup_failed cfg env e s = (Raise e, s')
    ∧ history s' = history s ++ evs
    ∧ map fst evs = cleanup_calls cfg s.
Proof.
  unfold startup_failed. rewrite bind_logger.
  destruct (cleanup_spec cfg env (add_log (Error, MsgStartupFailed e) s))
    as (s' & evs & Hclean & Hh & Hcalls & _).
  rewrite (bind_ok _ _ _ _ _ Hclean). by exists s', evs.
Qed.

Lemma cleanup_calls_not_launch cfg s (evs : list Event) :
  map fst evs = cleanup_calls cfg s → Forall (λ ev, kind ev.1 ≠ KLaunch) evs.
Proof.
  intros Hcalls. apply Forall_forall. intros ev Hev.
  assert (ev.1 ∈ cleanup_calls cfg s) as Hin
    by (rewrite <- Hcalls; by apply list_elem_of_fmap_2).
  unfold cleanup_calls in Hin. rewrite !elem_of_app in Hin.
  destruct Hin as [Hin | [Hin | Hin]].
  - destruct (browser_context s); [|by apply elem_of_nil in Hin].
    apply list_elem_of_singleton in Hin. by rewrite Hin.
  - destruct (browser s); [|by apply elem_of_nil in Hin].
    apply list_elem_of_singleton in Hin. by rewrite Hin.
  - destruct (AUTO_CLOSE_BROWSER cfg); [|by apply elem_of_nil in Hin].
    apply list_elem_of_singleton in Hin. by rewrite Hin.
Qed.

(** The run of [launch_and_connect] when the probe answers true: the probe,
    the fetch of the handshake address, the rest of the [try] block, then
    the [except] clause if something raised. *)
Lemma attach_run cfg env playwright_proxy user_agent headless s :
  (test_cdp_connection env (Some (CDP_DEBUG_PORT cfg)) s).1 = Ok true →
  ∃ o1 o2 body handler,
    history (launch_and_connect cfg env playwright_proxy user_agent headless s).2 =
      history s
      ++ (HttpGet JsonVersion (Some (CDP_DEBUG_PORT cfg)) 2, o1)
      :: (HttpGet JsonVersion (Some (CDP_DEBUG_PORT cfg)) 10, o2)
      :: body ++ handler
    ∧ Forall (of_kinds [KHttp; KPlaywright]) body
    ∧ match (launch_and_connect cfg env playwright_proxy user_agent headless s).1 with
      | Ok _ => handler = []
      | Raise _ => ∃ s', map fst handler = cleanup_calls cfg s'
      end.
Proof.
  intros Hprobe.
  destruct (launch_and_connect_after_probe cfg env playwright_proxy user_agent
              headless s) as (running & s1 & Hrun & Hh & Hport & _ & ->).
  pose proof (test_cdp_connection_result env (Some (CDP_DEBUG_PORT cfg))
                (set_debug_port (Some (CDP_DEBUG_PORT cfg)) s) s eq_refl) as Heq.
  rewrite Hrun, Hprobe in Heq. injection Heq as ->.
  unfold try_except, after_probe, reach_browser.
  set (s1' := add_log (Info, MsgAttachExisting (Some (CDP_DEBUG_PORT cfg))) s1).
  destruct (connect_via_cdp_trace env s1') as (o2 & evs_c & Hc & HPc).
  replace (debug_port s1') with (Some (CDP_DEBUG_PORT cfg)) in Hc by done.
  replace (history s1') with (history s1) in Hc by done.
  assert (Forall (of_kinds [KHttp; KPlaywright]) evs_c) as HPc'.
  { eapply Forall_impl; [done|]. unfold of_kinds. intros ev Hev.
    apply list_elem_of_singleton in Hev. rewrite Hev. solve_kind. }
  eexists _, o2.
  destruct (connect_via_cdp env s1') as [[[]|e] s2] eqn:Hconn; cbn in Hc.
  - erewrite bind_ok; [|rewrite bind_logger; exact Hconn].
    destruct (emits_resolve env playwright_proxy user_agent s2)
      as (evs_r & Hr & HPr).
    match type of Hr with
    | context [?m s2] => destruct (m s2) as [[c|e] s3]
    end; cbn in Hr.
    + exists (evs_c ++ evs_r), []. cbn. split; [|split; [|done]].
      * rewrite Hr, Hc, Hh, app_nil_r, <- !app_assoc. done.
      * by apply Forall_app.
    + destruct (startup_failed_spec cfg env e s3) as (s4 & evs_h & Hfail & Hf & Hcalls).
      rewrite Hfail. exists (evs_c ++ evs_r), evs_h. cbn. split; [|split].
      * rewrite Hf, Hr, Hc, Hh, <- !app_assoc. done.
      * by apply Forall_app.
      * by exists s3.
  - erewrite bind_raise; [|rewrite bind_logger; exact Hconn].
    destruct (startup_failed_spec cfg env e s2) as (s4 & evs_h & Hfail & Hf & Hcalls).
    rewrite Hfail. exists evs_c, evs_h. cbn. split; [|split].
    + rewrite Hf, Hc, Hh, <- !app_assoc. done.
    + done.
    + by exists s2.
Qed.

(** C4 (as amended).  When the readiness probe answers true on the
    configured port at the start of [launch_and_connect], the launch step is
    not taken: after the probe's request the very next call is the fetch of
    the handshake address (the start of the CDP connection), and no call of
    path detection or launch (file lookup, launcher path detection, launch,
    readiness wait) is made anywhere in the run.  The calls of the [try]
    block go to the metadata endpoint and to the controller only, and a
    successful run makes no other call.  The launcher is called in one case
    only: when a step raises and [AUTO_CLOSE_BROWSER] is set, the [except]
    clause's [cleanup] calls the launcher's [cleanup]. *)
Theorem attach_skips_launch cfg env playwright_proxy user_agent headless s :
  (test_cdp_connection env (Some (CDP_DEBUG_PORT cfg)) s).1 = Ok true →
  ∃ o1 o2 body handler,
    history (launch_and_connect cfg env playwright_proxy user_agent headless s).2 =
      history s
      ++ (HttpGet JsonVersion (Some (CDP_DEBUG_PORT cfg)) 2, o1)
      :: (HttpGet JsonVersion (Some (CDP_DEBUG_PORT cfg)) 10, o2)
      :: body ++ handler
    ∧ Forall (of_kinds [KHttp; KPlaywright]) body
    ∧ Forall (λ ev, kind ev.1 ≠ KLaunch) handler
    ∧ (∀ c, (launch_and_connect cfg env playwright_proxy user_agent headless s).1
            = Ok c →
            handler = [])
    ∧ (LauncherCleanup ∈ map fst handler ↔
       (∃ e, (launch_and_connect cfg env playwright_proxy user_agent headless s).1
             = Raise e)
       ∧ AUTO_CLOSE_BROWSER cfg = true).
Proof.
  intros Hprobe.
  destruct (attach_run cfg env playwright_proxy user_agent headless s Hprobe)
    as (o1 & o2 & body & handler & Hh & Hbody & Hhandler).
  exists o1, o2, body, handler. split; [done|]. split; [done|].
  destruct (launch_and_connect cfg env playwright_proxy user_agent headless s).1
    as [c|e].
  - subst handler. split; [constructor|]. split; [done|]. split.
    + by intros ?%elem_of_nil.
    + by intros [[e [=]] _].
  - destruct Hhandler as [s' Hcalls]. split; [by eapply cleanup_calls_not_launch|].
    split; [done|]. rewrite Hcalls, launcher_cleanup_in_cleanup_calls.
    split; [intros ?; split; [by exists e | done] | by intros [_ ?]].
Qed.

(** ** The launch path *)

Lemma get_browser_path_debug_port cfg env s :
  debug_port (get_browser_path cfg env s).2 = debug_port s.
Proof.
  unfold get_browser_path, bind, extern, logger, modify, ret, raise.
  repeat (case_match; simplify_eq/=; try done).
Qed.

Section LaunchTimeout.

Variable cfg : Config.
Variable env : Env.

Local Abbreviation port := (Some (CDP_DEBUG_PORT cfg)).

(** The launch reaches the readiness wait, and the wait reports failure. *)
Hypothesis profile_dir_ok :
  SAVE_LOGIN_STATE cfg = true →
  (∀ h, ∃ cwd, env_getcwd env h = Ok cwd) ∧ (∀ h d, env_makedirs env h d = Ok tt).
Hypothesis launch_ok :
  ∀ h path headless dir, ∃ process,
    env_launch_browser env h path port headless dir = Ok process.
Hypothesis never_ready :
  ∀ h, env_wait_for_browser_ready env h port (BROWSER_LAUNCH_TIMEOUT cfg) = Ok false.

Lemma launch_browser_timeout browser_path headless s :
  debug_port s = port →
  ∃ s',
    launch_browser cfg env browser_path headless s =
      (Raise (RuntimeError (LaunchTimeout (BROWSER_LAUNCH_TIMEOUT cfg))), s').
Proof.
  intros Hport. unfold launch_browser.
  destruct (SAVE_LOGIN_STATE cfg) eqn:Hsave.
  - destruct (profile_dir_ok eq_refl) as [Hcwd Hmk].
    destruct (Hcwd (history s)) as [cwd Hcwd'].
    unfold bind, extern, gets, modify, logger, ret, raise.
    rewrite Hcwd'. cbn. rewrite Hmk. cbn. rewrite Hport.
    match goal with
    | |- context [env_launch_browser env ?h ?a ?p ?b ?d] =>
        destruct (launch_ok h a b d) as [process Hproc]; rewrite Hproc
    end.
    cbn. rewrite never_ready. cbn. by eexists.
  - unfold bind, extern, gets, modify, logger, ret, raise. cbn. rewrite Hport.
    match goal with
    | |- context [env_launch_browser env ?h ?a ?p ?b ?d] =>
        destruct (launch_ok h a b d) as [process Hproc]; rewrite Hproc
    end.
    cbn. rewrite never_ready. cbn. by eexists.
Qed.

End LaunchTimeout.

(** C3 (as amended).  When the probe answers false at the start, path
    resolution and the launch succeed, and the launcher's readiness wait
    reports failure for the configured port and timeout,
    [launch_and_connect] fails with the launch-timeout [RuntimeError].  The
    failing call runs [cleanup] before re-raising, so the launcher's
    [cleanup] (process termination) is called during it exactly when
    [AUTO_CLOSE_BROWSER] is set. *)
Theorem launch_timeout_terminates_iff_auto_close
    cfg env playwright_proxy user_agent headless s :
  (test_cdp_connection env (Some (CDP_DEBUG_PORT cfg)) s).1 = Ok false →
  (∀ s0, ∃ path s1, get_browser_path cfg env s0 = (Ok path, s1)) →
  (SAVE_LOGIN_STATE cfg = true →
   (∀ h, ∃ cwd, env_getcwd env h = Ok cwd) ∧ (∀ h d, env_makedirs env h d = Ok tt)) →
  (∀ h path hl dir, ∃ process,
     env_launch_browser env h path (Some (CDP_DEBUG_PORT cfg)) hl dir = Ok process) →
  (∀ h, env_wait_for_browser_ready env h (Some (CDP_DEBUG_PORT cfg))
          (BROWSER_LAUNCH_TIMEOUT cfg) = Ok false) →
  ∃ s' evs,
    launch_and_connect cfg env playwright_proxy user_agent headless s =
      (Raise (RuntimeError (LaunchTimeout (BROWSER_LAUNCH_TIMEOUT cfg))), s')
    ∧ history s' = history s ++ evs
    ∧ (LauncherCleanup ∈ map fst evs ↔ AUTO_CLOSE_BROWSER cfg = true).
Proof.
  intros Hprobe Hpath Hdir Hlaunch Hwait.
  destruct (launch_and_connect_after_probe cfg env playwright_proxy user_agent
              headless s) as (running & s1 & Hrun & Hh & Hport & _ & ->).
  pose proof (test_cdp_connection_result env (Some (CDP_DEBUG_PORT cfg))
                (set_debug_port (Some (CDP_DEBUG_PORT cfg)) s) s eq_refl) as Heq.
  rewrite Hrun, Hprobe in Heq. injection Heq as ->.
  set (s1' := add_log (Info, MsgLaunchNew (Some (CDP_DEBUG_PORT cfg))) s1).
  destruct (Hpath s1') as (path & s2 & Hp).
  assert (debug_port s2 = Some (CDP_DEBUG_PORT cfg)) as Hport2.
  { pose proof (get_browser_path_debug_port cfg env s1') as Hd.
    rewrite Hp in Hd. etrans; [exact Hd | exact Hport]. }
  destruct (launch_browser_timeout cfg env Hdir Hlaunch Hwait path headless s2 Hport2)
    as (s3 & Hl).
  destruct (grows_run _ _ _ _ _ _
              (emits_get_browser_path cfg env [KHttp; KLaunch] ltac:(solve_kind)) Hp)
    as (evs_p & Hhp & HPp).
  destruct (grows_run _ _ _ _ _ _
              (emits_launch_browser cfg env [KHttp; KLaunch] path headless
                 ltac:(solve_kind) ltac:(solve_kind)) Hl)
    as (evs_l & Hhl & HPl).
  set (s3' := add_log
                (Error, MsgStartupFailed
                          (RuntimeError (LaunchTimeout (BROWSER_LAUNCH_TIMEOUT cfg)))) s3).
  destruct (cleanup_spec cfg env s3') as (s4 & evs_c & Hclean & Hhc & Hcalls & _).
  exists s4, ([(HttpGet JsonVersion (Some (CDP_DEBUG_PORT cfg)) 2,
                outcome (env_http_get env (history s) JsonVersion
                           (Some (CDP_DEBUG_PORT cfg)) 2))]
              ++ evs_p ++ evs_l ++ evs_c).
  split; [|split].
  - unfold try_except, after_probe, reach_browser.
    erewrite bind_raise.
    2:{ rewrite bind_logger. erewrite bind_ok; [|exact Hp].
        erewrite bind_raise; [|exact Hl]. done. }
    unfold startup_failed. rewrite bind_logger.
    by erewrite bind_ok; [|exact Hclean].
  - rewrite Hhc. replace (history s3') with (history s3) by done.
    rewrite Hhl, Hhp. replace (history s1') with (history s1) by done.
    by rewrite Hh, <- !app_assoc.
  - rewrite !map_app, !elem_of_app, Hcalls, launcher_cleanup_in_cleanup_calls.
    split; [|by auto].
    intros [Hin | [Hin | [Hin | Hin]]]; [| | |done].
    + cbn in Hin. apply list_elem_of_singleton in Hin. discriminate.
    + apply list_elem_of_fmap in Hin as (ev & Hev & Hin).
      rewrite Forall_forall in HPp. apply HPp in Hin.
      unfold of_kinds in Hin. rewrite <- Hev in Hin. cbn in Hin.
      exfalso. revert Hin. not_kind.
    + apply list_elem_of_fmap in Hin as (ev & Hev & Hin).
      rewrite Forall_forall in HPl. apply HPl in Hin.
      unfold of_kinds in Hin. rewrite <- Hev in Hin. cbn in Hin.
      exfalso. revert Hin. not_kind.
Qed.

(** Witness for C3 (as amended): nothing listens on port 9222, the launcher
    finds a browser and starts it, and the readiness wait fails. *)
Lemma launch_timeout_terminates_iff_auto_close_witness :
  ∃ s' evs,
    launch_and_connect (Demo.cfg false)
      (Demo.env Demo.refused Demo.refused ["/usr/bin/chrome"] false [] [])
      None None false init =
      (Raise (RuntimeError (LaunchTimeout 60)), s')
    ∧ history s' = history init ++ evs
    ∧ (LauncherCleanup ∈ map fst evs ↔ false = true).
Proof.
  apply (launch_timeout_terminates_iff_auto_close (Demo.cfg false)
           (Demo.env Demo.refused Demo.refused ["/usr/bin/chrome"] false [] [])
           None None false init).
  - reflexivity.
  - intros s0. eexists _, _. reflexivity.
  - intros _. split; [intros h; by eexists | reflexivity].
  - intros h path hl dir. by eexists.
  - reflexivity.
Defined.

(** Counterexample to C3 as stated: with [AUTO_CLOSE_BROWSER] set, the
    failing call does terminate the launcher's process, through [cleanup]. *)
Lemma launch_timeout_terminates_counterexample :
  let run := launch_and_connect (Demo.cfg true)
               (Demo.env Demo.refused Demo.refused ["/usr/bin/chrome"] false [] [])
               None None false init in
  run.1 = Raise (RuntimeError (LaunchTimeout 60))
  ∧ map fst (history run.2) =
      [HttpGet JsonVersion (Some 9222) 2;
       DetectBrowserPaths;
       LauncherGetBrowserInfo "/usr/bin/chrome";
       OsGetcwd;
       OsMakedirs "/work/browser_data/cdp_xhs_user_data_dir";
       LauncherLaunchBrowser "/usr/bin/chrome" (Some 9222) false
         (Some "/work/browser_data/cdp_xhs_user_data_dir");
       LauncherWaitForBrowserReady (Some 9222) 60;
       LauncherCleanup]
  ∧ ¬ (LauncherCleanup ∉ map fst (history run.2)).
Proof.
  cbn zeta. split; [reflexivity|]. split; [reflexivity|].
  intros Hnot. apply Hnot. vm_compute. repeat constructor.
Qed.

(** Witness for C4 (as amended): a browser already answers on port 9222. *)
Lemma attach_skips_launch_witness :
  let run := launch_and_connect (Demo.cfg true)
               (Demo.env Demo.version_ok Demo.refused [] false [ContextId 7] [])
               None None false init in
  ∃ o1 o2 body handler,
    history run.2 =
      history init
      ++ (HttpGet JsonVersion (Some 9222) 2, o1)
      :: (HttpGet JsonVersion (Some 9222) 10, o2)
      :: body ++ handler
    ∧ Forall (of_kinds [KHttp; KPlaywright]) body
    ∧ Forall (λ ev, kind ev.1 ≠ KLaunch) handler
    ∧ (∀ c, run.1 = Ok c → handler = [])
    ∧ (LauncherCleanup ∈ map fst handler ↔
       (∃ e, run.1 = Raise e) ∧ AUTO_CLOSE_BROWSER (Demo.cfg true) = true).
Proof.
  cbn zeta.
  apply (attach_skips_launch (Demo.cfg true)
           (Demo.env Demo.version_ok Demo.refused [] false [ContextId 7] [])
           None None false init).
  reflexivity.
Defined.

(** Counterexample to C4 as stated: the probe answers true, the handshake
    address is fetched, the controller hands out a handle that reports
    itself disconnected, and [AUTO_CLOSE_BROWSER] is set.  The launch step
    is skipped, yet the launcher is invoked: the failing call ends with the
    launcher's [cleanup]. *)
Lemma attach_launcher_cleanup_counterexample :
  let run := launch_and_connect (Demo.cfg true) disconnected_env
               None None false init in
  (test_cdp_connection disconnected_env (Some (CDP_DEBUG_PORT (Demo.cfg true)))
     init).1 = Ok true
  ∧ run.1 = Raise (RuntimeError CdpConnectFailed)
  ∧ map fst (history run.2) =
      [HttpGet JsonVersion (Some 9222) 2;
       HttpGet JsonVersion (Some 9222) 10;
       ConnectOverCdp (JStr "ws://localhost:9222/devtools");
       BrowserClose (BrowserId 1);
       LauncherCleanup]
  ∧ ¬ Forall (λ call, kind call ≠ KLaunch ∧ kind call ≠ KTerminate)
        (map fst (history run.2)).
Proof.
  cbn zeta. split; [reflexivity|]. split; [reflexivity|].
  split; [reflexivity|].
  intros Hall. rewrite Forall_forall in Hall.
  destruct (Hall LauncherCleanup) as [_ Hterm]; [|by apply Hterm].
  vm_compute. repeat (first [left; reflexivity | right]).
Qed.

(** ** Failure of [launch_and_connect] *)

Section AcquireFailure.

Variable cfg : Config.
Variable env : Env.
Variable playwright_proxy : option (list (string * string)).
Variable user_agent : option string.
Variable headless : bool.

Local Abbreviation port := (Some (CDP_DEBUG_PORT cfg)).

(** [Connected s s']: in [launch_and_connect] started from [s], the steps
    up to and including the CDP connection succeed, leaving [s']. *)
Inductive Connected (s : State) : State → Prop :=
| connected_attach s1 s2 :
    test_cdp_connection env port (set_debug_port port s) = (Ok true, s1) →
    connect_via_cdp env (add_log (Info, MsgAttachExisting port) s1) = (Ok tt, s2) →
    Connected s s2
| connected_launch s1 browser_path s2 s3 s4 :
    test_cdp_connection env port (set_debug_port port s) = (Ok false, s1) →
    get_browser_path cfg env (add_log (Info, MsgLaunchNew port) s1)
      = (Ok browser_path, s2) →
    launch_browser cfg env browser_path headless s2 = (Ok tt, s3) →
    connect_via_cdp env s3 = (Ok tt, s4) →
    Connected s s4.

(** [StepRaises s e s']: in [launch_and_connect] started from [s], the
    steps before it having succeeded, a step raises [e] in state [s']:
    the connection when attaching, path detection, the launch, the
    connection after a launch, or context resolution.  (The probe never
    raises.) *)
Inductive StepRaises (s : State) (e : Exn) : State → Prop :=
| raises_attach s1 s2 :
    test_cdp_connection env port (set_debug_port port s) = (Ok true, s1) →
    connect_via_cdp env (add_log (Info, MsgAttachExisting port) s1) = (Raise e, s2) →
    StepRaises s e s2
| raises_path s1 s2 :
    test_cdp_connection env port (set_debug_port port s) = (Ok false, s1) →
    get_browser_path cfg env (add_log (Info, MsgLaunchNew port) s1) = (Raise e, s2) →
    StepRaises s e s2
| raises_launch s1 browser_path s2 s3 :
    test_cdp_connection env port (set_debug_port port s) = (Ok false, s1) →
    get_browser_path cfg env (add_log (Info, MsgLaunchNew port) s1)
      = (Ok browser_path, s2) →
    launch_browser cfg env browser_path headless s2 = (Raise e, s3) →
    StepRaises s e s3
| raises_connect s1 browser_path s2 s3 s4 :
    test_cdp_connection env port (set_debug_port port s) = (Ok false, s1) →
    get_browser_path cfg env (add_log (Info, MsgLaunchNew port) s1)
      = (Ok browser_path, s2) →
    launch_browser cfg env browser_path headless s2 = (Ok tt, s3) →
    connect_via_cdp env s3 = (Raise e, s4) →
    StepRaises s e s4
| raises_context s1 s2 :
    Connected s s1 →
    create_browser_context env playwright_proxy user_agent s1 = (Raise e, s2) →
    StepRaises s e s2.

Lemma Connected_reach s s' :
  Connected s s' →
  ∃ running s1,
    test_cdp_connection env port (set_debug_port port s) = (Ok running, s1)
    ∧ reach_browser cfg env headless running s1 = (Ok tt, s').
Proof.
  intros [s1 s2 Hprobe Hconn | s1 path s2 s3 s4 Hprobe Hpath Hlaunch Hconn].
  - exists true, s1. split; [done|]. unfold reach_browser.
    by rewrite bind_logger.
  - exists false, s1. split; [done|]. unfold reach_browser.
    rewrite bind_logger. rewrite (bind_ok _ _ _ _ _ Hpath).
    by rewrite (bind_ok _ _ _ _ _ Hlaunch).
Qed.

Lemma StepRaises_after_probe s e s' :
  StepRaises s e s' →
  ∃ running s1,
    test_cdp_connection env port (set_debug_port port s) = (Ok running, s1)
    ∧ after_probe cfg env playwright_proxy user_agent headless running s1
      = (Raise e, s').
Proof.
  intros [s1 s2 Hprobe Hconn
         |s1 s2 Hprobe Hpath
         |s1 path s2 s3 Hprobe Hpath Hlaunch
         |s1 path s2 s3 s4 Hprobe Hpath Hlaunch Hconn
         |s1 s2 Hconn Hctx].
  - exists true, s1. split; [done|]. unfold after_probe, reach_browser.
    erewrite bind_raise; [done|]. by rewrite bind_logger.
  - exists false, s1. split; [done|]. unfold after_probe, reach_browser.
    erewrite bind_raise; [done|]. rewrite bind_logger.
    by rewrite (bind_raise _ _ _ _ _ Hpath).
  - exists false, s1. split; [done|]. unfold after_probe, reach_browser.
    erewrite bind_raise; [done|]. rewrite bind_logger.
    rewrite (bind_ok _ _ _ _ _ Hpath). by rewrite (bind_raise _ _ _ _ _ Hlaunch).
  - exists false, s1. split; [done|]. unfold after_probe, reach_browser.
    erewrite bind_raise; [done|]. rewrite bind_logger.
    rewrite (bind_ok _ _ _ _ _ Hpath). by rewrite (bind_ok _ _ _ _ _ Hlaunch).
  - destruct (Connected_reach _ _ Hconn) as (running & s0 & Hprobe & Hreach).
    exists running, s0. split; [done|]. unfold after_probe.
    rewrite (bind_ok _ _ _ _ _ Hreach). by rewrite (bind_raise _ _ _ _ _ Hctx).
Qed.

End AcquireFailure.

(** C6.  Whenever a step of [launch_and_connect] raises an exception [e]
    (the CDP connection, path detection, the launch, or context resolution),
    the manager logs the failure, runs [cleanup] to completion from the state
    the failure left, and then re-raises [e] itself: the call ends in [e],
    never in a returned context.  After it, [browser] and [browser_context]
    are [None], and the calls made after the failure are those of
    [cleanup]. *)
Theorem acquire_failure_cleans_up_and_reraises
    cfg env playwright_proxy user_agent headless s e s_failed :
  StepRaises cfg env playwright_proxy user_agent headless s e s_failed →
  ∃ s' evs,
    launch_and_connect cfg env playwright_proxy user_agent headless s = (Raise e, s')
    ∧ cleanup cfg env (add_log (Error, MsgStartupFailed e) s_failed) = (Ok tt, s')
    ∧ history s' = history s_failed ++ evs
    ∧ map fst evs = cleanup_calls cfg s_failed
    ∧ browser s' = None
    ∧ browser_context s' = None.
Proof.
  intros Hraises.
  destruct (StepRaises_after_probe _ _ _ _ _ _ _ _ Hraises)
    as (running & s1 & Hprobe & Hafter).
  destruct (launch_and_connect_after_probe cfg env playwright_proxy user_agent
              headless s) as (running' & s1' & Hprobe' & _ & _ & _ & ->).
  rewrite Hprobe in Hprobe'. injection Hprobe' as <- <-.
  rewrite (try_except_raise _ _ _ _ _ Hafter).
  destruct (cleanup_spec cfg env (add_log (Error, MsgStartupFailed e) s_failed))
    as (s' & evs & Hclean & Hh & Hcalls & Hb & Hc & _).
  exists s', evs. repeat split; try done.
  unfold startup_failed. rewrite bind_logger.
  by rewrite (bind_ok _ _ _ _ _ Hclean).
Qed.

(** Witness for C6: nothing listens on the port and no browser is installed,
    so path detection raises. *)
Lemma acquire_failure_cleans_up_and_reraises_witness :
  ∃ s' evs,
    launch_and_connect (Demo.cfg true)
      (Demo.env Demo.refused Demo.refused [] false [] []) None None false init
      = (Raise (RuntimeError NoBrowserFound), s')
    ∧ cleanup (Demo.cfg true) (Demo.env Demo.refused Demo.refused [] false [] [])
        (add_log (Error, MsgStartupFailed (RuntimeError NoBrowserFound))
           (get_browser_path (Demo.cfg true)
              (Demo.env Demo.refused Demo.refused [] false [] [])
              (add_log (Info, MsgLaunchNew (Some 9222))
                 (test_cdp_connection
                    (Demo.env Demo.refused Demo.refused [] false [] [])
                    (Some 9222) (set_debug_port (Some 9222) init)).2)).2)
      = (Ok tt, s')
    ∧ history s' =
        history (get_browser_path (Demo.cfg true)
                   (Demo.env Demo.refused Demo.refused [] false [] [])
                   (add_log (Info, MsgLaunchNew (Some 9222))
                      (test_cdp_connection
                         (Demo.env Demo.refused Demo.refused [] false [] [])
                         (Some 9222) (set_debug_port (Some 9222) init)).2)).2
        ++ evs
    ∧ map fst evs = [LauncherCleanup]
    ∧ browser s' = None
    ∧ browser_context s' = None.
Proof.
  apply (acquire_failure_cleans_up_and_reraises (Demo.cfg true)
           (Demo.env Demo.refused Demo.refused [] false [] []) None None false init).
  eapply raises_path; reflexivity.
Defined.

(** ** The cookie federation *)

(** C5.  De-duplication is keyed on the pair of the cookie's [name] and
    [domain] fields (each possibly absent), first seen wins: for every name
    [n] and domain [d], the cookies of the result with that name and that
    domain are exactly the first cookie of the input with that name and
    that domain (later ones are dropped); the result keeps the input's
    order; no two cookies of the result agree on both fields; its length is
    the number of distinct (name, domain) pairs of the input; and
    de-duplicating a second time changes nothing. *)
Theorem dedup_first_seen_wins (all_cookies : list Cookie) :
  (∀ n d : option string,
     filter (λ c, cookie_name c = n ∧ cookie_domain c = d)
       (dedup_cookies all_cookies) =
     option_list
       (head (filter (λ c, cookie_name c = n ∧ cookie_domain c = d) all_cookies)))
  ∧ dedup_cookies all_cookies `sublist_of` all_cookies
  ∧ (∀ i j c c',
       dedup_cookies all_cookies !! i = Some c →
       dedup_cookies all_cookies !! j = Some c' →
       cookie_name c = cookie_name c' →
       cookie_domain c = cookie_domain c' →
       i = j)
  ∧ length (dedup_cookies all_cookies) =
      size (list_to_set ((λ c, (cookie_name c, cookie_domain c)) <$> all_cookies)
              : gset (option string * option string))
  ∧ dedup_cookies (dedup_cookies all_cookies) = dedup_cookies all_cookies.
Proof.
  unfold dedup_cookies. repeat split.
  - intros n d.
    rewrite !(list_filter_iff (λ c, cookie_name c = n ∧ cookie_domain c = d)
                (λ c, cookie_key c = (n, d)))
      by (intros c; unfold cookie_key; split; [by intros [-> ->] | by intros [= -> ->]]).
    rewrite dedup_loop_first. by rewrite decide_False by set_solver.
  - apply dedup_loop_sublist.
  - intros i j c c' Hi Hj Hn Hd.
    pose proof (dedup_loop_NoDup all_cookies ∅) as Hnodup.
    eapply NoDup_lookup; [exact Hnodup| |].
    + rewrite list_lookup_fmap, Hi. reflexivity.
    + rewrite list_lookup_fmap, Hj. cbn. unfold cookie_key. by rewrite Hn, Hd.
  - rewrite dedup_loop_length. f_equal.
    change (λ c, (cookie_name c, cookie_domain c)) with cookie_key. set_solver.
  - apply dedup_loop_id; [apply dedup_loop_NoDup|].
    intros c _. set_solver.
Qed.

Example dedup_cookies_example :
  dedup_cookies [Demo.cookie "sid" "a.com"; Demo.cookie "sid" "b.com";
                 mkCookie (Some "sid") "later" (Some "a.com") "/x";
                 Demo.cookie "tok" "a.com"]
  = [Demo.cookie "sid" "a.com"; Demo.cookie "sid" "b.com"; Demo.cookie "tok" "a.com"].
Proof. vm_compute. reflexivity. Qed.

(** *** The harvest filter

    The source comments the filter as keeping the cookies of the probed
    domain.  Domains are related when, leading dots of the cookie's field
    aside, they are equal or one is a parent domain of the other. *)

Fixpoint dots (n : nat) : string :=
  match n with
  | O => ""
  | S n => String "."%char (dots n)
  end.

(** [site] is [field] without its leading dots. *)
Definition without_leading_dots (field site : string) : Prop :=
  (∃ n, field = dots n +:+ site) ∧ ∀ rest, site ≠ String "."%char rest.

(** [child] is a proper subdomain of [parent]: it ends with a dot followed
    by [parent]. *)
Definition subdomain_of (child parent : string) : Prop :=
  ∃ labels, child = labels +:+ "." +:+ parent.

(** Two domain names on one branch of the domain tree. *)
Definition related_domains (d site : string) : Prop :=
  d ≠ "" ∧ site ≠ "" ∧ (site = d ∨ subdomain_of d site ∨ subdomain_of site d).

Lemma lstrip_without_leading_dots (field : string) :
  without_leading_dots field (PyStr.lstrip "."%char field).
Proof.
  induction field as [|a field [[n IH] Hhead]]; cbn.
  - split; [by exists 0%nat | done].
  - case_decide as Ha.
    + subst a. split; [|done]. exists (S n). cbn [dots].
      by rewrite PyStr.app_cons, <- IH.
    + split; [by exists 0%nat|]. intros rest [= -> _]. done.
Qed.

Lemma without_leading_dots_unique (field site : string) :
  without_leading_dots field site → site = PyStr.lstrip "."%char field.
Proof.
  intros [[n ->] Hhead]. induction n as [|n IH]; cbn [dots].
  - rewrite PyStr.app_nil_l. destruct site as [|a site]; [done|]. cbn.
    case_decide as Ha; [|done]. subst a. by destruct (Hhead site).
  - rewrite PyStr.app_cons. cbn. by rewrite decide_True.
Qed.

Lemma related_domains_match (d : string) (c : Cookie) (site : string) :
  without_leading_dots (get_domain c) site →
  related_domains d site →
  domain_matches d c = true.
Proof.
  intros Hsite (_ & _ & Hrel). apply domain_matches_spec.
  rewrite <- (without_leading_dots_unique _ _ Hsite).
  destruct Hsite as [[n Hfield] _].
  destruct Hrel as [-> | [[labels ->] | [labels ->]]].
  - right. apply PyStr.Substring_refl.
  - right. exists (labels +:+ "."), "".
    by rewrite PyStr.app_nil_r, PyStr.app_assoc.
  - left. rewrite Hfield. exists (dots n +:+ labels +:+ "."), "".
    by rewrite PyStr.app_nil_r, !PyStr.app_assoc.
Qed.

(** C1 (as amended).  In the harvest of a probed domain [d], when the
    temporary page opens, the navigation succeeds and the context's cookie
    jar is read, the cookies added to [all_cookies] are cookies of the jar,
    in the jar's order, and among them is every cookie whose domain field,
    leading dots aside, is [d] itself, a parent domain of [d] or a
    subdomain of [d].  No cookie is added unless [d] occurs inside its
    domain field or its domain field without leading dots occurs inside
    [d]. *)
Theorem harvest_keeps_related_domains env c page_url domain s p cookies :
  env_new_page env (history s) c = Ok p →
  env_goto env (history s ++ [(NewPage c, Returned)]) p page_url 5000 = Ok tt →
  env_cookies env
    ((history s ++ [(NewPage c, Returned)]) ++ [(PageGoto p page_url 5000, Returned)])
    (env_page_context env p) = Ok cookies →
  ∃ kept,
    all_cookies (harvest_domain env c page_url domain s).2 = all_cookies s ++ kept
    ∧ kept `sublist_of` cookies
    ∧ (∀ ck site, ck ∈ cookies →
                  without_leading_dots (get_domain ck) site →
                  related_domains domain site →
                  ck ∈ kept)
    ∧ (∀ ck site, ck ∈ kept →
                  without_leading_dots (get_domain ck) site →
                  PyStr.Substring domain (get_domain ck)
                  ∨ PyStr.Substring site domain).
Proof.
  intros Hpage Hgoto Hjar. exists (domain_cookies domain cookies).
  split; [|split; [|split]].
  - unfold harvest_domain, new_page, goto, context_cookies, page_close,
      try_finally, try_except, bind, extern, modify.
    rewrite Hpage. cbn. rewrite Hgoto. cbn. rewrite Hjar. cbn.
    by destruct (env_page_close _ _ _) as [[]|].
  - apply sublist_filter.
  - intros ck site Hin Hsite Hrel. apply elem_of_domain_cookies.
    split; [done|]. by eapply related_domains_match.
  - intros ck site [_ Hm]%elem_of_domain_cookies Hsite.
    rewrite (without_leading_dots_unique _ _ Hsite).
    by apply domain_matches_spec.
Qed.

(** Witness for C1 (as amended): probing [example.com] with three cookies
    in the jar. *)
Lemma harvest_keeps_related_domains_witness :
  let jar := [Demo.cookie "sid" ".example.com"; Demo.cookie "x" "other.org";
              Demo.cookie "t" "www.example.com"] in
  ∃ kept,
    all_cookies
      (harvest_domain (Demo.env Demo.refused Demo.refused [] false [] jar)
         (ContextId 1) "https://example.com/feed" "example.com" init).2
    = all_cookies init ++ kept
    ∧ kept `sublist_of` jar
    ∧ (∀ ck site, ck ∈ jar →
                  without_leading_dots (get_domain ck) site →
                  related_domains "example.com" site →
                  ck ∈ kept)
    ∧ (∀ ck site, ck ∈ kept →
                  without_leading_dots (get_domain ck) site →
                  PyStr.Substring "example.com" (get_domain ck)
                  ∨ PyStr.Substring site "example.com").
Proof.
  cbn zeta.
  apply (harvest_keeps_related_domains
           (Demo.env Demo.refused Demo.refused [] false []
              [Demo.cookie "sid" ".example.com"; Demo.cookie "x" "other.org";
               Demo.cookie "t" "www.example.com"])
           (ContextId 1) "https://example.com/feed" "example.com" init (PageId 0));
    reflexivity.
Defined.

(** The jar of the witness: the cookie of the domain itself and the one of
    its subdomain are kept, the one of [other.org] is not. *)
Example harvest_related_domains_example :
  domain_cookies "example.com"
    [Demo.cookie "sid" ".example.com"; Demo.cookie "x" "other.org";
     Demo.cookie "t" "www.example.com"]
  = [Demo.cookie "sid" ".example.com"; Demo.cookie "t" "www.example.com"].
Proof. vm_compute. reflexivity. Qed.

(** Counterexample to C1 as stated.  Probing [example.com], a cookie of the
    subdomain [www.example.com] is kept although its domain field neither
    equals the probed domain nor is a suffix of it; so is a cookie of the
    unrelated domain [e.co], whose name merely occurs inside
    [example.com]. *)
Lemma harvest_filter_counterexample :
  ¬ (Demo.cookie "t" "www.example.com"
       ∈ domain_cookies "example.com" [Demo.cookie "t" "www.example.com"]
     ↔ get_domain (Demo.cookie "t" "www.example.com") = "example.com"
       ∨ PyStr.Suffix (get_domain (Demo.cookie "t" "www.example.com")) "example.com")
  ∧ ¬ (Demo.cookie "id" "e.co" ∈ domain_cookies "example.com" [Demo.cookie "id" "e.co"]
       ↔ get_domain (Demo.cookie "id" "e.co") = "example.com"
         ∨ PyStr.Suffix (get_domain (Demo.cookie "id" "e.co")) "example.com").
Proof.
  split.
  - intros [Hkept _].
    destruct Hkept as [Heq | Hsuf].
    + vm_compute. by left.
    + discriminate Heq.
    + apply PyStr.endswith_spec in Hsuf. discriminate Hsuf.
  - intros [Hkept _].
    destruct Hkept as [Heq | Hsuf].
    + vm_compute. by left.
    + discriminate Heq.
    + apply PyStr.endswith_spec in Hsuf. discriminate Hsuf.
Qed.

(** *** The grouping by domain *)

(** The key under which the replay files a cookie. *)
Definition replay_domain (c : Cookie) : string :=
  PyStr.lstrip "."%char (get_domain c).

(** [cookies_by_domain.get(domain)] *)
Fixpoint groups_get (domain : string) (groups : list (string * list Cookie))
  : option (list Cookie) :=
  match groups with
  | [] => None
  | (d, cs) :: rest => if decide (d = domain) then Some cs else groups_get domain rest
  end.

Lemma group_by_domain_snoc (l : list Cookie) (c : Cookie) :
  group_by_domain (l ++ [c]) = group_append (replay_domain c) c (group_by_domain l).
Proof. unfold group_by_domain. by rewrite foldl_app. Qed.

Lemma groups_get_append (d k : string) (c : Cookie) groups :
  groups_get d (group_append k c groups) =
  if decide (d = k) then Some (default [] (groups_get k groups) ++ [c])
  else groups_get d groups.
Proof.
  induction groups as [|[d0 cs0] rest IH]; cbn.
  - repeat case_decide; by simplify_eq.
  - destruct (decide (d0 = k)) as [->|Hne]; cbn.
    + repeat case_decide; by simplify_eq.
    + rewrite IH. repeat case_decide; by simplify_eq.
Qed.

Lemma group_append_keys (k : string) (c : Cookie) groups :
  (group_append k c groups).*1 =
  if decide (k ∈ groups.*1) then groups.*1 else groups.*1 ++ [k].
Proof.
  induction groups as [|[d0 cs0] rest IH]; cbn.
  - rewrite decide_False; [done|]. by intros ?%elem_of_nil.
  - destruct (decide (d0 = k)) as [->|Hne]; cbn.
    + rewrite decide_True; [done|]. by left.
    + rewrite IH. destruct (decide (k ∈ rest.*1)) as [Hin|Hin].
      * rewrite decide_True; [done|]. by right.
      * rewrite decide_False; [done|].
        intros [?|?]%elem_of_cons; by simplify_eq.
Qed.

Lemma groups_get_None (d : string) groups :
  groups_get d groups = None ↔ d ∉ groups.*1.
Proof.
  induction groups as [|[d0 cs0] rest IH]; cbn.
  - split; [intros _ ?%elem_of_nil; done | done].
  - case_decide as Hd.
    + split; [done|]. intros Hn. exfalso. apply Hn. subst. by left.
    + rewrite IH. rewrite not_elem_of_cons. naive_solver.
Qed.

Lemma groups_get_elem_of (d : string) (cs : list Cookie) groups :
  NoDup groups.*1 → (d, cs) ∈ groups ↔ groups_get d groups = Some cs.
Proof.
  induction groups as [|[d0 cs0] rest IH]; cbn; intros Hnd.
  - split; [by intros ?%elem_of_nil | done].
  - apply NoDup_cons in Hnd as [Hd0 Hnd]. rewrite elem_of_cons.
    case_decide as Hd.
    + subst d0. split.
      * intros [Heq | Hin]; [by simplify_eq|].
        exfalso. apply Hd0. apply list_elem_of_fmap. by exists (d, cs).
      * intros [= ->]. by left.
    + rewrite <- (IH Hnd). split; [|by right].
      intros [Heq | Hin]; [by simplify_eq | done].
Qed.

Lemma group_by_domain_keys_NoDup (l : list Cookie) : NoDup (group_by_domain l).*1.
Proof.
  induction l as [|c l IH] using rev_ind; [constructor|].
  rewrite group_by_domain_snoc, group_append_keys.
  case_decide as Hin; [done|].
  apply NoDup_app. split; [done|]. split; [|apply NoDup_singleton].
  intros d Hd ->%list_elem_of_singleton. done.
Qed.

Lemma group_by_domain_get (l : list Cookie) (d : string) :
  groups_get d (group_by_domain l) =
  match filter (λ c, replay_domain c = d) l with
  | [] => None
  | cs => Some cs
  end.
Proof.
  induction l as [|c l IH] using rev_ind; [done|].
  rewrite group_by_domain_snoc, groups_get_append, filter_app.
  destruct (decide (d = replay_domain c)) as [->|Hne].
  - rewrite IH, filter_cons_True by done.
    by destruct (filter _ l).
  - rewrite IH, filter_cons_False by done. by rewrite filter_nil, app_nil_r.
Qed.

(** *** The replay plan

    What the replay is to do, written without the dictionary: the domains
    of the merged cookies in the order in which they first appear, each
    with the merged cookies of that domain. *)

(** The elements of a list in the order of their first occurrence. *)
Fixpoint first_occurrences (l : list string) : list string :=
  match l with
  | [] => []
  | x :: l' => x :: filter (λ y, y ≠ x) (first_occurrences l')
  end.

Definition cookies_of_domain (d : string) (cookies : list Cookie) : list Cookie :=
  filter (λ c, replay_domain c = d) cookies.

Definition replay_plan (cookies : list Cookie) : list (string * list Cookie) :=
  (λ d, (d, cookies_of_domain d cookies))
    <$> first_occurrences (replay_domain <$> cookies).

Lemma replay_domain_spec (c : Cookie) :
  without_leading_dots (get_domain c) (replay_domain c).
Proof. apply lstrip_without_leading_dots. Qed.

Lemma elem_of_first_occurrences (x : string) (l : list string) :
  x ∈ first_occurrences l ↔ x ∈ l.
Proof.
  induction l as [|y l IH]; cbn; [done|].
  rewrite !elem_of_cons, list_elem_of_filter, IH.
  destruct (decide (x = y)); naive_solver.
Qed.

Lemma first_occurrences_snoc (l : list string) (x : string) :
  first_occurrences (l ++ [x]) =
  if decide (x ∈ l) then first_occurrences l else first_occurrences l ++ [x].
Proof.
  induction l as [|y l IH]; cbn.
  - rewrite decide_False; [done|]. by intros ?%elem_of_nil.
  - rewrite IH. destruct (decide (x ∈ l)) as [Hin|Hin].
    + rewrite decide_True; [done|]. by right.
    + rewrite filter_app. destruct (decide (x = y)) as [->|Hne].
      * rewrite decide_True by (by left).
        rewrite filter_cons_False by (by intros ?). by rewrite filter_nil, app_nil_r.
      * rewrite decide_False by (intros [?|?]%elem_of_cons; by simplify_eq).
        by rewrite filter_cons_True by done.
Qed.

Lemma first_occurrences_NoDup (l : list string) : NoDup (first_occurrences l).
Proof.
  induction l as [|y l IH]; cbn; [constructor|].
  apply NoDup_cons. split.
  - intros [Hne _]%list_elem_of_filter. done.
  - by apply NoDup_filter.
Qed.

Lemma group_by_domain_keys (l : list Cookie) :
  (group_by_domain l).*1 = first_occurrences (replay_domain <$> l).
Proof.
  induction l as [|c l IH] using rev_ind; [done|].
  rewrite group_by_domain_snoc, group_append_keys, fmap_app, IH. cbn.
  rewrite first_occurrences_snoc.
  destruct (decide (replay_domain c ∈ replay_domain <$> l)) as [Hin|Hin].
  - rewrite decide_True; [done|]. by apply elem_of_first_occurrences.
  - rewrite decide_False; [done|]. by rewrite elem_of_first_occurrences.
Qed.

Lemma groups_by_keys (groups : list (string * list Cookie)) :
  NoDup groups.*1 →
  groups = (λ d, (d, default [] (groups_get d groups))) <$> groups.*1.
Proof.
  induction groups as [|[d0 cs0] rest IH]; cbn; intros Hnd; [done|].
  apply NoDup_cons in Hnd as [Hd0 Hnd].
  rewrite decide_True by done. cbn. f_equal.
  rewrite (IH Hnd) at 1. apply list_fmap_ext. intros i d Hd.
  rewrite decide_False; [done|]. intros ->. apply Hd0.
  by eapply list_elem_of_lookup_2.
Qed.

(** The dictionary [cookies_by_domain], read in insertion order, is the
    replay plan. *)
Lemma group_by_domain_plan (l : list Cookie) : group_by_domain l = replay_plan l.
Proof.
  rewrite (groups_by_keys (group_by_domain l)) by apply group_by_domain_keys_NoDup.
  unfold replay_plan. rewrite group_by_domain_keys.
  apply list_fmap_ext. intros i d Hd.
  rewrite group_by_domain_get. unfold cookies_of_domain.
  by destruct (filter _ l).
Qed.

(** The plan files every merged cookie under its domain: the group of a
    domain holds exactly the merged cookies whose domain field, without its
    leading dots, is that domain. *)
Lemma replay_plan_groups (cookies : list Cookie) (d : string) (cs : list Cookie) :
  (d, cs) ∈ replay_plan cookies →
  ∀ ck, ck ∈ cs ↔ ck ∈ cookies ∧ without_leading_dots (get_domain ck) d.
Proof.
  intros (d' & [= -> ->] & _)%list_elem_of_fmap ck.
  unfold cookies_of_domain. rewrite list_elem_of_filter. split.
  - intros [<- Hin]. split; [done | apply replay_domain_spec].
  - intros [Hin Hd]. split; [|done].
    symmetry. by apply without_leading_dots_unique.
Qed.

Example replay_plan_example :
  replay_plan [Demo.cookie "sid" ".b.com"; Demo.cookie "sid" "a.com";
               Demo.cookie "tok" "b.com"]
  = [("b.com", [Demo.cookie "sid" ".b.com"; Demo.cookie "tok" "b.com"]);
     ("a.com", [Demo.cookie "sid" "a.com"])].
Proof. vm_compute. reflexivity. Qed.

(** *** The replay phase *)

Section Replay.

Variable c : BrowserContext.
Variable p : Page.

(** The navigation to [https://domain] followed by the installation;
    the flag tells whether both succeeded. *)
Inductive SecureAttempt (domain : string) (cookies : list Cookie)
  : bool → list Event → Prop :=
| secure_done :
    SecureAttempt domain cookies true
      [(PageGoto p ("https://" +:+ domain) 5000, Returned);
       (ContextAddCookies c cookies, Returned)]
| secure_goto_raised e :
    SecureAttempt domain cookies false
      [(PageGoto p ("https://" +:+ domain) 5000, Raised e)]
| secure_install_raised e :
    SecureAttempt domain cookies false
      [(PageGoto p ("https://" +:+ domain) 5000, Returned);
       (ContextAddCookies c cookies, Raised e)].

(** The second attempt, over [http://domain]; its failure is swallowed. *)
Inductive Fallback (domain : string) (cookies : list Cookie)
  : list Event → Prop :=
| fallback_goto_raised e :
    Fallback domain cookies [(PageGoto p ("http://" +:+ domain) 5000, Raised e)]
| fallback_installed o :
    Fallback domain cookies
      [(PageGoto p ("http://" +:+ domain) 5000, Returned);
       (ContextAddCookies c cookies, o)].

(** The events of one domain: the secure attempt, and the fallback exactly
    when the secure attempt failed. *)
Inductive DomainTrace : string * list Cookie → list Event → Prop :=
| domain_secure domain cookies evs :
    SecureAttempt domain cookies true evs →
    DomainTrace (domain, cookies) evs
| domain_fallback domain cookies evs evs' :
    SecureAttempt domain cookies false evs →
    Fallback domain cookies evs' →
    DomainTrace (domain, cookies) (evs ++ evs').

(** The events of the loop over [cookies_by_domain], domain after domain. *)
Inductive InstallTrace : list (string * list Cookie) → list Event → Prop :=
| install_nil : InstallTrace [] []
| install_cons entry rest evs evs' :
    DomainTrace entry evs →
    InstallTrace rest evs' →
    InstallTrace (entry :: rest) (evs ++ evs').

Definition on_temp_page (ev : Event) : Prop :=
  (∃ url, ev.1 = PageGoto p url 5000) ∨ (∃ cookies, ev.1 = ContextAddCookies c cookies).

Lemma DomainTrace_on_temp_page entry evs :
  DomainTrace entry evs → Forall on_temp_page evs.
Proof.
  assert (∀ url o, on_temp_page (PageGoto p url 5000, o)) as Hgoto
    by (intros; left; by eexists).
  assert (∀ cookies o, on_temp_page (ContextAddCookies c cookies, o)) as Hadd
    by (intros; right; by eexists).
  intros [domain cookies ? Hs | domain cookies ? ? Hs Hf].
  - inversion Hs; subst. auto.
  - apply Forall_app. split.
    + inversion Hs; subst; auto.
    + inversion Hf; subst; auto.
Qed.

Lemma InstallTrace_on_temp_page groups evs :
  InstallTrace groups evs → Forall on_temp_page evs.
Proof.
  induction 1 as [|entry rest evs evs' Hd _ IH]; [constructor|].
  apply Forall_app. split; [by eapply DomainTrace_on_temp_page | done].
Qed.

Variable env : Env.

Lemma install_domain_trace entry s :
  ∃ s' evs,
    install_domain env c p entry s = (Ok tt, s')
    ∧ history s' = history s ++ evs
    ∧ DomainTrace entry evs.
Proof.
  destruct entry as [domain cookies].
  unfold install_domain, try_except, bind, goto, context_add_cookies, extern, ret.
  destruct (env_goto env (history s) p ("https://" +:+ domain) 5000)
    as [[]|e1] eqn:Hg1; cbn.
  - destruct (env_add_cookies env _ c cookies) as [[]|e2] eqn:Ha1; cbn.
    + eexists _, _. split; [done|]. cbn. rewrite <- app_assoc.
      split; [done|]. apply domain_secure. constructor.
    + destruct (env_goto env _ p ("http://" +:+ domain) 5000)
        as [[]|e3] eqn:Hg2; cbn.
      * match goal with
        | |- context [env_add_cookies env ?h c cookies] =>
            destruct (env_add_cookies env h c cookies) as [[]|e4] eqn:Ha2
        end; cbn;
          (eexists _, _; split; [done|]; cbn; rewrite <- !app_assoc;
           split; [done|];
           apply (domain_fallback domain cookies [_; _] [_; _]); constructor).
      * eexists _, _. split; [done|]. cbn. rewrite <- !app_assoc.
        split; [done|].
        apply (domain_fallback domain cookies [_; _] [_]); constructor.
  - destruct (env_goto env _ p ("http://" +:+ domain) 5000)
      as [[]|e3] eqn:Hg2; cbn.
    + match goal with
      | |- context [env_add_cookies env ?h c cookies] =>
          destruct (env_add_cookies env h c cookies) as [[]|e4] eqn:Ha2
      end; cbn;
        (eexists _, _; split; [done|]; cbn; rewrite <- !app_assoc;
         split; [done|];
         apply (domain_fallback domain cookies [_] [_; _]); constructor).
    + eexists _, _. split; [done|]. cbn. rewrite <- !app_assoc.
      split; [done|].
      apply (domain_fallback domain cookies [_] [_]); constructor.
Qed.

Lemma install_loop_trace groups : ∀ s,
  ∃ s' evs,
    for_each groups (install_domain env c p) s = (Ok tt, s')
    ∧ history s' = history s ++ evs
    ∧ InstallTrace groups evs.
Proof.
  induction groups as [|entry rest IH]; intros s.
  - exists s, []. split; [done|]. rewrite app_nil_r. split; [done|constructor].
  - destruct (install_domain_trace entry s) as (s1 & evs & Hrun & Hh & Hd).
    destruct (IH s1) as (s2 & evs' & Hrun' & Hh' & Hi).
    exists s2, (evs ++ evs'). cbn [for_each].
    rewrite (bind_ok _ _ _ _ _ Hrun). split; [done|].
    split; [by rewrite Hh', Hh, app_assoc | by constructor].
Qed.

End Replay.

Definition is_new_page (ev : Event) : bool :=
  match ev.1 with NewPage _ => true | _ => false end.

(** C2 (as amended).  The replay phase opens one temporary page for the
    whole phase, whatever the number of domains.  The domains are those of
    the merged cookies (domain field without its leading dots), in the
    order in which they first appear, each with the merged cookies of that
    domain in their order.  For every one of them, in that order, that same
    page is navigated to [https://domain] and the domain's cookies are
    installed; exactly when this navigation or installation raises, the
    page is navigated to [http://domain] and the installation is tried
    again.  The page is closed once, after the last domain, whatever
    happened before. *)
Theorem replay_shares_one_page env c unique_cookies s p :
  env_new_page env (history s) c = Ok p →
  ∃ evs o,
    history (replay_cookies env c unique_cookies s).2 =
      history s ++ [(NewPage c, Returned)] ++ evs ++ [(PageClose p, o)]
    ∧ InstallTrace c p (replay_plan unique_cookies) evs
    ∧ (∀ d cs, (d, cs) ∈ replay_plan unique_cookies →
         ∀ ck, ck ∈ cs ↔
               ck ∈ unique_cookies ∧ without_leading_dots (get_domain ck) d)
    ∧ Forall (on_temp_page c p) evs.
Proof.
  intros Hpage.
  unfold replay_cookies, new_page, page_close, try_finally.
  erewrite bind_ok; [|unfold extern; by rewrite Hpage].
  destruct (install_loop_trace c p env (group_by_domain unique_cookies)
              (add_event (NewPage c, Returned) s))
    as (s1 & evs & Hrun & Hh & Hi).
  rewrite (bind_ok _ _ _ _ _ Hrun). unfold logger, modify, extern. cbn.
  exists evs, (outcome (env_page_close env (history s1) p)).
  rewrite group_by_domain_plan in Hi.
  split; [|split; [done | split; [|by eapply InstallTrace_on_temp_page]]].
  - cbn in Hh.
    destruct (env_page_close env (history s1) p) as [[]|e]; cbn;
      by rewrite Hh, <- !app_assoc.
  - apply replay_plan_groups.
Qed.

(** Witness for C2 (as amended): two domains, one page. *)
Lemma replay_shares_one_page_witness :
  let cookies := [Demo.cookie "sid" ".a.com"; Demo.cookie "sid" "b.com"] in
  ∃ evs o,
    history (replay_cookies (Demo.env Demo.refused Demo.refused [] false [] [])
               (ContextId 1) cookies init).2 =
      history init ++ [(NewPage (ContextId 1), Returned)] ++ evs
      ++ [(PageClose (PageId 0), o)]
    ∧ InstallTrace (ContextId 1) (PageId 0) (replay_plan cookies) evs
    ∧ (∀ d cs, (d, cs) ∈ replay_plan cookies →
         ∀ ck, ck ∈ cs ↔ ck ∈ cookies ∧ without_leading_dots (get_domain ck) d)
    ∧ Forall (on_temp_page (ContextId 1) (PageId 0)) evs.
Proof.
  cbn zeta.
  apply (replay_shares_one_page (Demo.env Demo.refused Demo.refused [] false [] [])
           (ContextId 1) [Demo.cookie "sid" ".a.com"; Demo.cookie "sid" "b.com"]
           init (PageId 0)).
  reflexivity.
Defined.

(** Counterexample to C2 as stated: with cookies of two domains the replay
    opens one page, not one per domain, and that page is still open when
    the second domain is processed: the only close is the last call. *)
Lemma replay_page_per_domain_counterexample :
  let cookies := [Demo.cookie "sid" ".a.com"; Demo.cookie "sid" "b.com"] in
  let run := replay_cookies (Demo.env Demo.refused Demo.refused [] false [] [])
               (ContextId 1) cookies init in
  map fst (history run.2) =
    [NewPage (ContextId 1);
     PageGoto (PageId 0) "https://a.com" 5000;
     ContextAddCookies (ContextId 1) [Demo.cookie "sid" ".a.com"];
     PageGoto (PageId 0) "https://b.com" 5000;
     ContextAddCookies (ContextId 1) [Demo.cookie "sid" "b.com"];
     PageClose (PageId 0)]
  ∧ length (group_by_domain cookies) = 2%nat
  ∧ ¬ (length (filter (λ ev, is_new_page ev = true) (history run.2))
       = length (group_by_domain cookies)).
Proof.
  cbn zeta. split; [reflexivity|]. split; [reflexivity|].
  vm_compute. discriminate.
Qed.

(** *** Context resolution *)

Definition not_proxy_warning (entry : Level * LogMsg) : Prop :=
  entry.2 ≠ MsgProxyMayNotApply.

Ltac logs_call :=
  lazymatch goal with
  | |- grows log _ (logger _ _) => apply logs_logger; done
  | |- _ => grows_step
  end.

Section LogsFederation.

Variable env : Env.

Lemma logs_harvest_target c target :
  logs not_proxy_warning (harvest_target env c target).
Proof.
  unfold harvest_target, harvest_domain, new_page, goto, context_cookies,
    page_close.
  repeat logs_call.
Qed.

Lemma logs_replay_cookies c unique_cookies :
  logs not_proxy_warning (replay_cookies env c unique_cookies).
Proof.
  unfold replay_cookies, new_page, page_close. repeat logs_call.
  unfold install_domain, goto, context_add_cookies. repeat logs_call.
Qed.

Lemma logs_federate_cookies c :
  logs not_proxy_warning (federate_cookies env c).
Proof.
  unfold federate_cookies, http_get. repeat logs_call;
    first [apply logs_harvest_target | apply logs_replay_cookies].
Qed.

(** The new-context branch from [browser.new_context] on. *)
Definition create_fresh (b : Browser) (options : ContextOptions) : M BrowserContext :=
  browser_context <- extern (NewContext b options)
                       (λ h, env_new_context env h b options) ;;
  logger Warning MsgNewContextCreated ;;;
  federate_cookies env browser_context ;;;
  ret browser_context.

Lemma create_fresh_trace b options s :
  ∃ o evs entries,
    history (create_fresh b options s).2 =
      history s ++ (NewContext b options, o) :: evs
    ∧ log (create_fresh b options s).2 = log s ++ entries
    ∧ Forall not_proxy_warning entries.
Proof.
  unfold create_fresh.
  assert (logs not_proxy_warning
            (browser_context <- extern (NewContext b options)
                                  (λ h, env_new_context env h b options) ;;
             logger Warning MsgNewContextCreated ;;;
             federate_cookies env browser_context ;;;
             ret browser_context)) as Hlogs.
  { repeat logs_call. apply logs_federate_cookies. }
  destruct (Hlogs s) as (entries & Hentries & HP).
  exists (outcome (env_new_context env (history s) b options)).
  rewrite bind_extern in Hentries. rewrite bind_extern.
  destruct (env_new_context env (history s) b options) as [c|e].
  - assert (emits (of_kinds [KHttp; KPlaywright])
              (logger Warning MsgNewContextCreated ;;;
               federate_cookies env c ;;; ret c)) as Hemits.
    { repeat emits_call. apply emits_federate_cookies; solve_kind. }
    destruct (Hemits (add_event (NewContext b options, Returned) s))
      as (evs & Hevs & _).
    exists evs, entries. split; [|done].
    rewrite Hevs. cbn. by rewrite <- app_assoc.
  - by exists [], entries.
Qed.

End LogsFederation.

(** C9.  When the controller already exposes a context, context resolution
    returns the first one and leaves it alone: the only call made is at
    most one read of the cookie jar, so no context is created with the user
    agent, the 1920x1080 viewport or the downloads option, and neither the
    proxy warning nor the user-agent message is logged.  When it exposes
    none, the first call creates a context with viewport 1920x1080,
    downloads accepted and the user agent if one is supplied, and the proxy
    warning is logged exactly when a proxy is supplied. *)
Theorem context_options_only_on_fresh_context env playwright_proxy user_agent s b :
  browser s = Some b →
  match env_contexts env (history s) b with
  | first :: _ =>
      ∃ s' evs entries,
        create_browser_context env playwright_proxy user_agent s = (Ok first, s')
        ∧ history s' = history s ++ evs
        ∧ Forall (λ ev, ∃ c, ev.1 = ContextCookies c) evs
        ∧ (length evs ≤ 1)%nat
        ∧ log s' = log s ++ entries
        ∧ Forall (λ entry, entry.2 ≠ MsgProxyMayNotApply
                           ∧ ∀ ua, entry.2 ≠ MsgUserAgent ua) entries
  | [] =>
      ∃ o evs entries,
        history (create_browser_context env playwright_proxy user_agent s).2 =
          history s
          ++ (NewContext b
                (mkContextOptions (1920, 1080) true
                   (if opt_truthy user_agent then user_agent else None)), o)
          :: evs
        ∧ log (create_browser_context env playwright_proxy user_agent s).2 =
            log s
            ++ (if opt_truthy user_agent
                then [(Info, MsgUserAgent (default "" user_agent))] else [])
            ++ (if proxy_truthy playwright_proxy
                then [(Warning, MsgProxyMayNotApply)] else [])
            ++ entries
        ∧ Forall not_proxy_warning entries
  end.
Proof.
  intros Hb.
  destruct (env_contexts env (history s) b) as [|first rest] eqn:Hcontexts.
  - unfold create_browser_context.
    rewrite (bind_ok (gets browser) _ s (Some b) s) by (unfold gets; by rewrite Hb).
    rewrite (bind_ok (peek _) _ s [] s) by (unfold peek; by rewrite Hcontexts).
    fold (create_fresh env b (context_options user_agent)).
    unfold when, context_options.
    destruct (opt_truthy user_agent), (proxy_truthy playwright_proxy);
      repeat (rewrite bind_logger || rewrite (bind_ok (ret tt) _ _ tt _ eq_refl));
      match goal with
      | |- context [create_fresh env b ?o ?st] =>
          destruct (create_fresh_trace env b o st) as (o' & evs & entries & Hh & Hl & HP)
      end;
      exists o', evs, entries; rewrite Hh, Hl; cbn; by rewrite <- ?app_assoc.
  - unfold create_browser_context.
    rewrite (bind_ok (gets browser) _ s (Some b) s) by (unfold gets; by rewrite Hb).
    rewrite (bind_ok (peek _) _ s (first :: rest) s)
      by (unfold peek; by rewrite Hcontexts).
    rewrite bind_logger.
    unfold bind, peek, try_except, context_cookies, extern, when, logger, modify, ret.
    cbn.
    destruct (env_pages env (history s) first) as [|page0 pages]; cbn.
    + eexists _, [], _. split; [done|]. cbn. rewrite app_nil_r.
      repeat split; auto.
    + destruct (env_cookies env (history s) (env_page_context env page0))
        as [[|cookie cookies]|e]; cbn;
        (eexists _, [_], _; split; [done|]; cbn;
         split; [done|]; split; [by repeat econstructor|];
         split; [done|]; split; [by rewrite <- ?app_assoc|];
         by repeat constructor).
Qed.

(** Witness for C9: the controller exposes two contexts; a user agent and a
    proxy are supplied. *)
Lemma context_options_only_on_fresh_context_witness :
  ∃ s' evs entries,
    create_browser_context
      (Demo.env Demo.version_ok Demo.refused [] false [ContextId 7; ContextId 8] [])
      (Some [("server", "http://127.0.0.1:8080")]) (Some "Mozilla/5.0")
      (set_browser (Some (BrowserId 1)) init) = (Ok (ContextId 7), s')
    ∧ history s' = history (set_browser (Some (BrowserId 1)) init) ++ evs
    ∧ Forall (λ ev, ∃ c, ev.1 = ContextCookies c) evs
    ∧ (length evs ≤ 1)%nat
    ∧ log s' = log (set_browser (Some (BrowserId 1)) init) ++ entries
    ∧ Forall (λ entry, entry.2 ≠ MsgProxyMayNotApply
                       ∧ ∀ ua, entry.2 ≠ MsgUserAgent ua) entries.
Proof.
  apply (context_options_only_on_fresh_context
           (Demo.env Demo.version_ok Demo.refused [] false [ContextId 7; ContextId 8] [])
           (Some [("server", "http://127.0.0.1:8080")]) (Some "Mozilla/5.0")
           (set_browser (Some (BrowserId 1)) init) (BrowserId 1)).
  reflexivity.
Defined.


(** * Further properties of the manager *)

(** ** The harvest filter at the empty string *)

Lemma contains_empty (s : string) : PyStr.contains "" s = true.
Proof. by destruct s. Qed.

(** X1.  The empty string occurs in every string, so the filter lets
    through every cookie that has no domain field, an empty one, or one
    made of dots only, whatever the probed domain; and an empty probed
    domain keeps every cookie of the jar. *)
Theorem domain_matches_empty_string (domain : string) (c : Cookie) :
  (PyStr.lstrip "."%char (get_domain c) = "" → domain_matches domain c = true)
  ∧ (cookie_domain c = None → domain_matches domain c = true)
  ∧ domain_matches "" c = true
  ∧ ∀ cookies, domain_cookies "" cookies = cookies.
Proof.
  unfold domain_matches. repeat split.
  - intros ->. by rewrite contains_empty, orb_true_r.
  - unfold get_domain. intros ->. cbn. by rewrite contains_empty, orb_true_r.
  - by rewrite contains_empty.
  - intros cookies. unfold domain_cookies.
    induction cookies as [|ck cookies IH]; [done|].
    rewrite filter_cons_True; [by rewrite IH|].
    unfold domain_matches. by rewrite contains_empty.
Qed.

(** X2.  [cookies_by_domain] is a partition of the merged cookies by their
    domain without leading dots: no domain appears twice, the cookies filed
    under a domain are exactly the merged cookies of that domain, in their
    order, and no group is empty; so every merged cookie is in exactly one
    group. *)
Theorem group_by_domain_partition (unique_cookies : list Cookie) :
  NoDup (group_by_domain unique_cookies).*1
  ∧ (∀ d cs, (d, cs) ∈ group_by_domain unique_cookies ↔
             cs ≠ [] ∧ cs = filter (λ c, replay_domain c = d) unique_cookies)
  ∧ (∀ c, c ∈ unique_cookies →
          ∃ cs, (replay_domain c, cs) ∈ group_by_domain unique_cookies ∧ c ∈ cs).
Proof.
  pose proof (group_by_domain_keys_NoDup unique_cookies) as Hnd.
  split; [done|]. split.
  - intros d cs. rewrite (groups_get_elem_of _ _ _ Hnd), group_by_domain_get.
    destruct (filter _ unique_cookies) as [|c0 cs0]; naive_solver.
  - intros c Hin.
    exists (filter (λ c', replay_domain c' = replay_domain c) unique_cookies).
    assert (c ∈ filter (λ c', replay_domain c' = replay_domain c) unique_cookies)
      as Hc by (by apply list_elem_of_filter).
    split; [|done].
    rewrite (groups_get_elem_of _ _ _ Hnd), group_by_domain_get.
    destruct (filter _ unique_cookies); [by apply elem_of_nil in Hc | done].
Qed.

(** ** Invariants of runs

    [steps R m]: every run of [m] relates the state before to the state
    after by [R].  For a reflexive and transitive [R] this is preserved by
    sequencing, [try]/[except], [try]/[finally] and loops, so it is enough
    to check the primitives. *)
Definition steps {A : Type} (R : relation State) (m : M A) : Prop :=
  ∀ s, R s (m s).2.

Section Steps.

Context (R : relation State) `{!PreOrder R}.

Lemma steps_same {A : Type} (m : M A) : (∀ s, (m s).2 = s) → steps R m.
Proof. intros H s. by rewrite H. Qed.

Lemma steps_ret {A : Type} (a : A) : steps R (ret a).
Proof. by apply steps_same. Qed.

Lemma steps_raise {A : Type} (e : Exn) : steps R (raise (A:=A) e).
Proof. by apply steps_same. Qed.

Lemma steps_lift {A : Type} (r : Res A) : steps R (lift r).
Proof. by apply steps_same. Qed.

Lemma steps_gets {A : Type} (f : State → A) : steps R (gets f).
Proof. by apply steps_same. Qed.

Lemma steps_peek {A : Type} (f : list Event → A) : steps R (peek f).
Proof. by apply steps_same. Qed.

Lemma steps_modify (f : State → State) : (∀ s, R s (f s)) → steps R (modify f).
Proof. intros H s. apply H. Qed.

Lemma steps_logger lvl msg :
  (∀ s, R s (add_log (lvl, msg) s)) → steps R (logger lvl msg).
Proof. intros H s. apply H. Qed.

Lemma steps_extern {A : Type} (c : Call) (answer : list Event → Res A) :
  (∀ s, R s (add_event (c, outcome (answer (history s))) s)) →
  steps R (extern c answer).
Proof. intros H s. apply H. Qed.

Lemma steps_bind {A B : Type} (m : M A) (k : A → M B) :
  steps R m → (∀ a, steps R (k a)) → steps R (bind m k).
Proof.
  intros Hm Hk s. unfold bind. specialize (Hm s).
  destruct (m s) as [[a|e] s1]; cbn in *; [|done].
  etrans; [exact Hm | apply Hk].
Qed.

Lemma steps_try_except {A : Type} (m : M A) (h : Exn → M A) :
  steps R m → (∀ e, steps R (h e)) → steps R (try_except m h).
Proof.
  intros Hm Hh s. unfold try_except. specialize (Hm s).
  destruct (m s) as [[a|e] s1]; cbn in *; [done|].
  etrans; [exact Hm | apply Hh].
Qed.

Lemma steps_try_finally {A : Type} (m : M A) (fin : M unit) :
  steps R m → steps R fin → steps R (try_finally m fin).
Proof.
  intros Hm Hfin s. unfold try_finally. specialize (Hm s).
  destruct (m s) as [r s1]; cbn in *. specialize (Hfin s1).
  destruct (fin s1) as [[[]|e] s2]; cbn in *; by etrans.
Qed.

Lemma steps_for_each {A : Type} (l : list A) (body : A → M unit) :
  (∀ x, steps R (body x)) → steps R (for_each l body).
Proof.
  intros Hbody. induction l as [|x l IH]; cbn.
  - apply steps_ret.
  - apply steps_bind; [apply Hbody | by intros _].
Qed.

Lemma steps_when (cond : bool) (m : M unit) : steps R m → steps R (when cond m).
Proof. destruct cond; [done | intros _; apply steps_ret]. Qed.

End Steps.

(** Follows the structure of the method; leaves the primitives that change
    the state and the calls of other methods. *)
Ltac steps_go :=
  repeat lazymatch goal with
  | |- steps _ (bind _ _) => apply steps_bind; [try apply _| |intros ?]
  | |- steps _ (try_except _ _) => apply steps_try_except; [try apply _| |intros ?]
  | |- steps _ (try_finally _ _) => apply steps_try_finally; [try apply _| |]
  | |- steps _ (for_each _ _) => apply steps_for_each; [try apply _|intros ?]
  | |- steps _ (when _ _) => apply steps_when; [try apply _|]
  | |- steps _ (ret _) => apply steps_ret; try apply _
  | |- steps _ (raise _) => apply steps_raise; try apply _
  | |- steps _ (lift _) => apply steps_lift; try apply _
  | |- steps _ (gets _) => apply steps_gets; try apply _
  | |- steps _ (peek _) => apply steps_peek; try apply _
  | |- steps _ (match ?x with _ => _ end) => destruct x
  | |- steps _ (if ?x then _ else _) => destruct x
  end.

(** *** Fields that a method leaves alone *)

Definition keeps {X : Type} (f : State → X) : relation State :=
  λ s s', f s' = f s.

Global Instance keeps_preorder {X : Type} (f : State → X) : PreOrder (keeps f).
Proof.
  split; [by intros s | intros s1 s2 s3 H12 H23].
  unfold keeps in *. by rewrite H23.
Qed.

(** Closes a [keeps] goal for a method whose writes do not touch the field. *)
Ltac keeps_go :=
  steps_go;
  lazymatch goal with
  | |- steps _ (modify _) => apply steps_modify; intros ?; unfold keeps; auto
  | |- steps _ (logger _ _) => apply steps_logger; intros ?; unfold keeps; auto
  | |- steps _ (extern _ _) => apply steps_extern; intros ?; unfold keeps; auto
  | |- _ => idtac
  end.

Section KeepsField.

Context {X : Type} (f : State → X).
Hypothesis f_log : ∀ entry s, f (add_log entry s) = f s.
Hypothesis f_event : ∀ ev s, f (add_event ev s) = f s.
Hypothesis f_all_cookies : ∀ l s, f (set_all_cookies l s) = f s.
Hypothesis f_domains_checked : ∀ d s, f (set_domains_checked d s) = f s.

Variable cfg : Config.
Variable env : Env.

Lemma keeps_test_cdp_connection port : steps (keeps f) (test_cdp_connection env port).
Proof. unfold test_cdp_connection, http_get. keeps_go. Qed.

Lemma keeps_get_browser_path : steps (keeps f) (get_browser_path cfg env).
Proof. unfold get_browser_path. keeps_go. Qed.

Lemma keeps_get_browser_websocket_url port :
  steps (keeps f) (get_browser_websocket_url env port).
Proof. unfold get_browser_websocket_url, http_get. keeps_go. Qed.

Lemma keeps_federate_cookies c : steps (keeps f) (federate_cookies env c).
Proof.
  unfold federate_cookies, http_get, harvest_target, harvest_domain,
    replay_cookies, new_page, goto, context_cookies, page_close.
  keeps_go.
  unfold install_domain, goto, context_add_cookies. keeps_go.
Qed.

Lemma keeps_create_browser_context playwright_proxy user_agent :
  steps (keeps f) (create_browser_context env playwright_proxy user_agent).
Proof.
  unfold create_browser_context, context_cookies. keeps_go.
  apply keeps_federate_cookies.
Qed.

Hypothesis f_browser_process : ∀ p s, f (set_browser_process p s) = f s.

Lemma keeps_launch_browser browser_path headless :
  steps (keeps f) (launch_browser cfg env browser_path headless).
Proof. unfold launch_browser. keeps_go. apply keeps_test_cdp_connection. Qed.

Hypothesis f_browser : ∀ b s, f (set_browser b s) = f s.

Lemma keeps_connect_via_cdp : steps (keeps f) (connect_via_cdp env).
Proof.
  unfold connect_via_cdp. keeps_go. apply keeps_get_browser_websocket_url.
Qed.

Hypothesis f_browser_context : ∀ c s, f (set_browser_context c s) = f s.

Lemma keeps_cleanup : steps (keeps f) (cleanup cfg env).
Proof. unfold cleanup. keeps_go. Qed.

End KeepsField.

(** ** What [launch_and_connect] leaves behind *)

Lemma connect_via_cdp_ok env s s' :
  connect_via_cdp env s = (Ok tt, s') → ∃ b, browser s' = Some b.
Proof.
  unfold connect_via_cdp, try_except.
  rewrite (bind_ok (gets debug_port) _ s (debug_port s) s eq_refl).
  destruct (get_browser_websocket_url_spec env (debug_port s) s)
    as ([ws_url|e] & s1 & o & Hrun & _).
  - rewrite (bind_ok _ _ _ _ _ Hrun), bind_logger, bind_extern.
    destruct (env_connect_over_cdp env _ ws_url) as [b|e]; [|done].
    unfold bind, modify, peek, logger, raise. cbn.
    destruct (env_is_connected env _ b); cbn; [|done].
    intros [= <-]. by exists b.
  - by rewrite (bind_raise _ _ _ _ _ Hrun).
Qed.

Section AcquireOutcome.

Variable cfg : Config.
Variable env : Env.
Variable playwright_proxy : option (list (string * string)).
Variable user_agent : option string.
Variable headless : bool.

Lemma keeps_debug_port_after_probe running :
  steps (keeps debug_port)
    (try_except (after_probe cfg env playwright_proxy user_agent headless running)
       (startup_failed cfg env)).
Proof.
  unfold after_probe, reach_browser, startup_failed. keeps_go;
    first [ by apply keeps_connect_via_cdp
          | by apply keeps_get_browser_path
          | by apply keeps_launch_browser
          | by apply keeps_create_browser_context
          | by apply keeps_cleanup ].
Qed.

Lemma reach_browser_ok running s s' :
  reach_browser cfg env headless running s = (Ok tt, s') → ∃ b, browser s' = Some b.
Proof.
  unfold reach_browser. destruct running; rewrite bind_logger.
  - apply connect_via_cdp_ok.
  - unfold bind.
    destruct (get_browser_path cfg env _) as [[path|e] s1]; [|done].
    destruct (launch_browser cfg env path headless s1) as [[[]|e] s2]; [|done].
    apply connect_via_cdp_ok.
Qed.

Lemma after_probe_ok running s c s' :
  after_probe cfg env playwright_proxy user_agent headless running s = (Ok c, s') →
  browser_context s' = Some c ∧ ∃ b, browser s' = Some b.
Proof.
  unfold after_probe. unfold bind at 1.
  destruct (reach_browser cfg env headless running s) as [[[]|e] s1] eqn:Hreach;
    [|done].
  destruct (reach_browser_ok _ _ _ Hreach) as [b Hb].
  pose proof (keeps_create_browser_context browser
                ltac:(done) ltac:(done) ltac:(done) ltac:(done)
                env playwright_proxy user_agent s1) as Hkeep.
  unfold keeps in Hkeep. unfold bind, modify, ret.
  destruct (create_browser_context env playwright_proxy user_agent s1)
    as [[c'|e] s2]; [|done].
  cbn in Hkeep. intros [= <- <-]. split; [done|].
  exists b. cbn. by rewrite Hkeep.
Qed.

End AcquireOutcome.

(** X3.  However [launch_and_connect] ends, [debug_port] is the configured
    port.  When it returns a context, that context is the one stored in
    [browser_context] and a browser handle is held; when it raises, both
    fields are [None]. *)
Theorem launch_and_connect_outcome
    cfg env playwright_proxy user_agent headless s :
  debug_port (launch_and_connect cfg env playwright_proxy user_agent headless s).2
    = Some (CDP_DEBUG_PORT cfg)
  ∧ match (launch_and_connect cfg env playwright_proxy user_agent headless s).1 with
    | Ok c =>
        browser_context
          (launch_and_connect cfg env playwright_proxy user_agent headless s).2
          = Some c
        ∧ ∃ b, browser
                 (launch_and_connect cfg env playwright_proxy user_agent headless s).2
               = Some b
    | Raise _ =>
        browser (launch_and_connect cfg env playwright_proxy user_agent headless s).2
          = None
        ∧ browser_context
            (launch_and_connect cfg env playwright_proxy user_agent headless s).2
          = None
    end.
Proof.
  destruct (launch_and_connect_after_probe cfg env playwright_proxy user_agent
              headless s) as (running & s1 & _ & _ & Hport & _ & ->).
  split.
  - pose proof (keeps_debug_port_after_probe cfg env playwright_proxy user_agent
                  headless running s1) as Hkeep.
    unfold keeps in Hkeep. by rewrite Hkeep.
  - unfold try_except.
    destruct (after_probe cfg env playwright_proxy user_agent headless running s1)
      as [[c|e] s2] eqn:Hafter.
    + cbn. by eapply after_probe_ok.
    + unfold startup_failed. rewrite bind_logger.
      destruct (cleanup_spec cfg env (add_log (Error, MsgStartupFailed e) s2))
        as (s3 & evs & Hclean & _ & _ & Hb & Hc & _).
      by rewrite (bind_ok _ _ _ _ _ Hclean).
Qed.

(** ** Context resolution: what can fail *)

Lemma try_except_logged (m : M unit) lvl (msg : Exn → LogMsg) s :
  (try_except m (λ e, logger lvl (msg e)) s).1 = Ok tt.
Proof. unfold try_except. by destruct (m s) as [[[]|e] s']. Qed.

Lemma federate_cookies_ok env c s : (federate_cookies env c s).1 = Ok tt.
Proof. apply try_except_logged. Qed.

Lemma create_fresh_result env b options s :
  (create_fresh env b options s).1 =
  match env_new_context env (history s) b options with
  | Ok c => Ok c
  | Raise e => Raise e
  end.
Proof.
  unfold create_fresh. rewrite bind_extern.
  destruct (env_new_context env (history s) b options) as [c|e]; [|done].
  rewrite bind_logger. unfold bind.
  pose proof (federate_cookies_ok env c
                (add_log (Warning, MsgNewContextCreated)
                   (add_event (NewContext b options, Returned) s))) as Hok.
  by destruct (federate_cookies env c _) as [[[]|e] s'].
Qed.

Ltac raise_cases :=
  split;
  [ let H := fresh in
    intros H; try discriminate H; try (injection H as <-); eauto 6
  | let H1 := fresh in let H2 := fresh in let H3 := fresh in
    intros [[H1 H2] | (? & H1 & H2 & H3)]; simplify_eq; congruence ].

(** X4.  [_create_browser_context] raises in two cases only: no browser is
    connected ([RuntimeError], before any call), or the controller exposes
    no context and [new_context] itself raises, whose exception is passed
    on.  Nothing that goes wrong while reading an existing context's
    cookies or while federating cookies into a new context reaches the
    caller. *)
Theorem create_browser_context_raises env playwright_proxy user_agent s e :
  (create_browser_context env playwright_proxy user_agent s).1 = Raise e ↔
  (browser s = None ∧ e = RuntimeError BrowserNotConnected)
  ∨ (∃ b, browser s = Some b
          ∧ env_contexts env (history s) b = []
          ∧ env_new_context env (history s) b (context_options user_agent) = Raise e).
Proof.
  unfold create_browser_context.
  destruct (browser s) as [b|] eqn:Hb.
  - rewrite (bind_ok (gets browser) _ s (Some b) s) by (unfold gets; by rewrite Hb).
    destruct (env_contexts env (history s) b) as [|first rest] eqn:Hcontexts.
    + rewrite (bind_ok (peek _) _ s [] s) by (unfold peek; by rewrite Hcontexts).
      fold (create_fresh env b (context_options user_agent)).
      unfold when.
      destruct (opt_truthy user_agent), (proxy_truthy playwright_proxy);
        repeat (rewrite bind_logger || rewrite (bind_ok (ret tt) _ _ tt _ eq_refl));
        rewrite create_fresh_result; cbn;
        destruct (env_new_context env (history s) b (context_options user_agent))
          as [c|e'] eqn:Hnew;
        raise_cases.
    + rewrite (bind_ok (peek _) _ s (first :: rest) s)
        by (unfold peek; by rewrite Hcontexts).
      rewrite bind_logger.
      unfold bind, peek, try_except, context_cookies, extern, when, logger, modify,
        ret. cbn.
      destruct (env_pages env (history s) first) as [|page0 pages]; cbn;
        [raise_cases|].
      destruct (env_cookies env (history s) (env_page_context env page0))
        as [[|cookie cookies]|e']; cbn; raise_cases.
  - rewrite (bind_ok (gets browser) _ s None s) by (unfold gets; by rewrite Hb).
    cbn. raise_cases.
Qed.

(** ** The harvest loop *)

(** A target as the listing endpoint reports it: a dictionary whose [url],
    when present and truthy, is a string. *)
Definition well_formed_target (target : Json) : Prop :=
  ∃ fields,
    target = JObj fields
    ∧ ∀ v, assoc_get "url" fields = Some v → json_truthy v = true →
           ∃ url, v = JStr url.

(** Between two states of the harvest loop: [all_cookies] was extended,
    [domains_checked] only grew, and every cookie added passed the filter
    of a domain that entered [domains_checked] in between, that is, of a
    domain probed in between. *)
Definition harvests_probed : relation State :=
  λ s s', ∃ kept,
    all_cookies s' = all_cookies s ++ kept
    ∧ domains_checked s ⊆ domains_checked s'
    ∧ Forall (λ ck, ∃ d, d ∈ domains_checked s'
                         ∧ (d ∉ domains_checked s)
                         ∧ domain_matches d ck = true) kept.

Global Instance harvests_probed_preorder : PreOrder harvests_probed.
Proof.
  split.
  - intros s. exists []. by rewrite app_nil_r.
  - intros s1 s2 s3 (kept & Hc & Hsub & HP) (kept' & Hc' & Hsub' & HP').
    exists (kept ++ kept'). split; [by rewrite Hc', Hc, app_assoc|].
    split; [by etrans|]. apply Forall_app. split.
    + eapply Forall_impl; [exact HP|]. intros ck (d & Hd & Hnew & Hm).
      exists d. split; [by apply Hsub' | done].
    + eapply Forall_impl; [exact HP'|]. intros ck (d & Hd & Hnew & Hm).
      exists d. split; [done|]. split; [|done].
      intros Hold. by apply Hnew, Hsub.
Qed.

Lemma grows_extend_all_cookies (P : Cookie → Prop) (f : State → list Cookie) :
  (∀ s, Forall P (f s)) →
  grows all_cookies P (modify (λ s, set_all_cookies (all_cookies s ++ f s) s)).
Proof. intros H s. exists (f s). by split. Qed.

Ltac cookies_step :=
  lazymatch goal with
  | |- grows all_cookies _ (logger _ _) => by apply grows_silent
  | |- grows all_cookies _ (extern _ _) => by apply grows_silent
  | |- _ => grows_step
  end.

(** The harvest of one domain adds cookies that passed the filter of that
    domain, and nothing else. *)
Lemma harvest_domain_cookies env c page_url domain s :
  ∃ kept,
    all_cookies (harvest_domain env c page_url domain s).2 = all_cookies s ++ kept
    ∧ Forall (λ ck, domain_matches domain ck = true) kept
    ∧ domains_checked (harvest_domain env c page_url domain s).2 = domains_checked s.
Proof.
  assert (grows all_cookies (λ ck, domain_matches domain ck = true)
            (harvest_domain env c page_url domain)) as Hgrows.
  { unfold harvest_domain, new_page, goto, context_cookies, page_close.
    repeat cookies_step.
    apply (grows_extend_all_cookies _ (λ _, domain_cookies _ _)).
    intros _. apply Forall_forall. by intros ck [_ Hm]%elem_of_domain_cookies. }
  assert (steps (keeps domains_checked) (harvest_domain env c page_url domain))
    as Hkeep.
  { unfold harvest_domain, new_page, goto, context_cookies, page_close. keeps_go. }
  destruct (Hgrows s) as (kept & Hkept & HP). exists kept.
  split; [done|]. split; [done|]. apply Hkeep.
Qed.

Lemma harvest_target_harvests env c target :
  steps harvests_probed (harvest_target env c target).
Proof.
  intros s. unfold harvest_target, lift, gets, modify, ret, raise.
  unfold bind at 1.
  destruct (json_get target "type" JNull) as [type|e]; [|cbn; reflexivity].
  destruct (json_is_str type "page"); [|cbn; reflexivity].
  unfold bind at 1.
  destruct (json_get target "url" (JStr "")) as [page_url|e]; [|cbn; reflexivity].
  destruct page_url as [|b|n|url|items|kvs];
    try (destruct (json_truthy _); cbn; reflexivity).
  match goal with |- context [if ?b then _ else _] => destruct b end;
    [|cbn; reflexivity].
  unfold try_except, bind.
  destruct (env_netloc env url) as [domain|e]; cbn -[harvest_domain].
  - case_decide as Hin; [cbn; reflexivity|]. cbn -[harvest_domain].
    set (s1 := set_domains_checked ({[domain]} ∪ domains_checked s) s).
    destruct (harvest_domain_cookies env c url domain s1)
      as (kept & Hc & HP & Hd).
    assert (harvests_probed s (harvest_domain env c url domain s1).2) as HR.
    { exists kept. split; [done|]. rewrite Hd. cbn. split; [set_solver|].
      eapply Forall_impl; [exact HP|]. intros ck Hm. exists domain.
      split; [set_solver | done]. }
    by destruct (harvest_domain env c url domain s1) as [[[]|e] s2].
  - exists []. by rewrite app_nil_r.
Qed.

Lemma harvest_target_ok env c target s :
  well_formed_target target → (harvest_target env c target s).1 = Ok tt.
Proof.
  intros (fields & -> & Hurl). unfold harvest_target, json_get, lift.
  unfold bind at 1. destruct (json_is_str _ "page"); [|done].
  unfold bind at 1.
  destruct (assoc_get "url" fields) as [v|] eqn:Hv; cbn [default from_option id].
  - destruct v as [|b|n|url|items|kvs];
      try (destruct (json_truthy _) eqn:Ht; [|done];
           destruct (Hurl _ eq_refl Ht) as [? [=]]).
    match goal with |- context [if ?b then _ else _] => destruct b end; [|done].
    apply try_except_logged.
  - done.
Qed.

(** X5.  The harvest loop over well-formed targets runs to its end
    whatever the controller does: a page that cannot be opened, a
    navigation that fails, a cookie read or a close that raises only costs
    that domain its cookies.  [all_cookies] is only ever extended, so what
    earlier domains contributed is never lost, and every cookie the loop
    adds passed the filter of a domain that the loop probed, that is, of a
    domain that entered [domains_checked] during the loop. *)
Theorem harvest_loop_isolated env c items s :
  Forall well_formed_target items →
  ∃ s' kept,
    for_each items (harvest_target env c) s = (Ok tt, s')
    ∧ all_cookies s' = all_cookies s ++ kept
    ∧ domains_checked s ⊆ domains_checked s'
    ∧ Forall (λ ck, ∃ d, d ∈ domains_checked s'
                         ∧ (d ∉ domains_checked s)
                         ∧ domain_matches d ck = true) kept.
Proof.
  intros Hwf.
  assert (steps harvests_probed (for_each items (harvest_target env c)))
    as Hsteps
    by (apply steps_for_each; [apply _ | intros; apply harvest_target_harvests]).
  destruct (Hsteps s) as (kept & Hkept & Hsub & HP).
  exists (for_each items (harvest_target env c) s).2, kept.
  split; [|done]. clear Hsteps Hkept Hsub HP kept.
  revert s. induction Hwf as [|target items Ht _ IH]; intros s; [done|].
  cbn [for_each]. unfold bind.
  pose proof (harvest_target_ok env c target s Ht) as Hok.
  destruct (harvest_target env c target s) as [[[]|e] s1]; [|done].
  specialize (IH s1). by destruct (for_each items _ s1).
Qed.

(** Witness for X5: three page targets on two domains. *)
Lemma harvest_loop_isolated_witness :
  ∃ s' kept,
    for_each
      [JObj [("id", JStr "1"); ("type", JStr "page"); ("url", JStr "http://a.com/x")];
       JObj [("id", JStr "2"); ("type", JStr "page"); ("url", JStr "http://a.com/y")];
       JObj [("id", JStr "3"); ("type", JStr "page"); ("url", JStr "http://b.com/z")]]
      (harvest_target
         (Demo.env Demo.refused Demo.refused [] false [] [Demo.cookie "sid" "a.com"])
         (ContextId 1)) init = (Ok tt, s')
    ∧ all_cookies s' = all_cookies init ++ kept
    ∧ domains_checked init ⊆ domains_checked s'
    ∧ Forall (λ ck, ∃ d, d ∈ domains_checked s'
                         ∧ (d ∉ domains_checked init)
                         ∧ domain_matches d ck = true) kept.
Proof.
  apply (harvest_loop_isolated
           (Demo.env Demo.refused Demo.refused [] false [] [Demo.cookie "sid" "a.com"])
           (ContextId 1)).
  repeat constructor; eexists; (split; [reflexivity|]);
    intros v [= <-] _; by eexists.
Defined.

(** In the run of the witness the jar holds one cookie of [a.com]: it is
    kept by the probe of [a.com] and dropped by the probe of [b.com]. *)
Example harvest_loop_example :
  all_cookies
    (for_each
       [JObj [("id", JStr "1"); ("type", JStr "page"); ("url", JStr "http://a.com/x")];
        JObj [("id", JStr "2"); ("type", JStr "page"); ("url", JStr "http://a.com/y")];
        JObj [("id", JStr "3"); ("type", JStr "page"); ("url", JStr "http://b.com/z")]]
       (harvest_target
          (Demo.env Demo.refused Demo.refused [] false [] [Demo.cookie "sid" "a.com"])
          (ContextId 1)) init).2
  = [Demo.cookie "sid" "a.com"].
Proof. vm_compute. reflexivity. Qed.

(** *** One probe per domain *)

Definition new_page_attempts (evs : list Event) : nat :=
  length (filter (λ ev, is_new_page ev = true) evs).

(** Between two states: the history was extended, [domains_checked] only
    grew, and it grew by as many domains as pages were requested. *)
Definition probes_new_domains : relation State :=
  λ s s', ∃ evs,
    history s' = history s ++ evs
    ∧ domains_checked s ⊆ domains_checked s'
    ∧ (new_page_attempts evs + size (domains_checked s))%nat
      = size (domains_checked s').

Global Instance probes_new_domains_preorder : PreOrder probes_new_domains.
Proof.
  split.
  - intros s. exists []. by rewrite app_nil_r.
  - intros s1 s2 s3 (evs & Hh & Hsub & Hn) (evs' & Hh' & Hsub' & Hn').
    exists (evs ++ evs'). split; [by rewrite Hh', Hh, app_assoc|].
    split; [by etrans|].
    unfold new_page_attempts in *. rewrite filter_app, length_app. lia.
Qed.

Lemma new_page_attempts_none (evs : list Event) :
  Forall (λ ev, is_new_page ev = false) evs → new_page_attempts evs = 0%nat.
Proof.
  unfold new_page_attempts. induction 1 as [|ev evs Hev _ IH]; [done|].
  rewrite filter_cons_False; [done|]. by rewrite Hev.
Qed.

Lemma harvest_domain_one_attempt env c page_url domain s :
  ∃ evs,
    history (harvest_domain env c page_url domain s).2 = history s ++ evs
    ∧ new_page_attempts evs = 1%nat
    ∧ domains_checked (harvest_domain env c page_url domain s).2 = domains_checked s.
Proof.
  assert (steps (keeps domains_checked) (harvest_domain env c page_url domain))
    as Hkeep.
  { unfold harvest_domain, new_page, goto, context_cookies, page_close. keeps_go. }
  unfold harvest_domain, new_page. rewrite bind_extern.
  destruct (env_new_page env (history s) c) as [p|e] eqn:Hpage.
  - match goal with
    | |- context [try_finally ?m ?fin] =>
        assert (emits (λ ev, is_new_page ev = false) (try_finally m fin)) as Hrest
    end.
    { unfold goto, context_cookies, page_close.
      repeat (grows_step || (apply emits_extern; intros ?; reflexivity)). }
    destruct (Hrest (add_event (NewPage c, Returned) s)) as (evs & Hevs & HP).
    exists ((NewPage c, Returned) :: evs). split; [|split].
    + rewrite Hevs. cbn. by rewrite <- app_assoc.
    + unfold new_page_attempts. rewrite filter_cons_True by done. cbn.
      f_equal. by apply new_page_attempts_none.
    + specialize (Hkeep s). unfold keeps, harvest_domain, new_page in Hkeep.
      rewrite bind_extern, Hpage in Hkeep. exact Hkeep.
  - exists [(NewPage c, Raised e)]. by repeat split.
Qed.

Lemma harvest_target_probes env c target :
  steps probes_new_domains (harvest_target env c target).
Proof.
  intros s. unfold harvest_target, lift, gets, modify, ret, raise.
  unfold bind at 1.
  destruct (json_get target "type" JNull) as [type|e]; [|cbn; reflexivity].
  destruct (json_is_str type "page"); [|cbn; reflexivity].
  unfold bind at 1.
  destruct (json_get target "url" (JStr "")) as [page_url|e]; [|cbn; reflexivity].
  destruct page_url as [|b|n|url|items|kvs];
    try (destruct (json_truthy _); cbn; reflexivity).
  match goal with |- context [if ?b then _ else _] => destruct b end;
    [|cbn; reflexivity].
  unfold try_except, bind.
  destruct (env_netloc env url) as [domain|e]; cbn -[harvest_domain].
  - case_decide as Hin; [cbn; reflexivity|]. cbn -[harvest_domain].
    set (s1 := set_domains_checked ({[domain]} ∪ domains_checked s) s).
    destruct (harvest_domain_one_attempt env c url domain s1)
      as (evs & Hh & Hn & Hd).
    assert (probes_new_domains s (harvest_domain env c url domain s1).2) as HR.
    { exists evs. split; [done|]. rewrite Hd. cbn. split; [set_solver|].
      rewrite Hn, size_union by set_solver. by rewrite size_singleton. }
    by destruct (harvest_domain env c url domain s1) as [[[]|e] s2].
  - exists []. by rewrite app_nil_r.
Qed.

(** X6.  In the harvest loop a temporary page is requested exactly once
    for every domain that enters [domains_checked], and never for a target
    whose domain is already there: the number of [new_page] calls equals
    the growth of [domains_checked], whatever the targets and whatever
    fails. *)
Theorem harvest_probes_each_domain_once env c items s :
  ∃ evs,
    history (for_each items (harvest_target env c) s).2 = history s ++ evs
    ∧ domains_checked s ⊆ domains_checked (for_each items (harvest_target env c) s).2
    ∧ (new_page_attempts evs + size (domains_checked s))%nat
      = size (domains_checked (for_each items (harvest_target env c) s).2).
Proof.
  apply (steps_for_each probes_new_domains). intros target.
  apply harvest_target_probes.
Qed.

Example harvest_two_domains_two_probes :
  let run := for_each
      [JObj [("id", JStr "1"); ("type", JStr "page"); ("url", JStr "http://a.com/x")];
       JObj [("id", JStr "2"); ("type", JStr "page"); ("url", JStr "http://a.com/y")];
       JObj [("id", JStr "3"); ("type", JStr "page"); ("url", JStr "http://b.com/z")]]
      (harvest_target
         (Demo.env Demo.refused Demo.refused [] false [] [Demo.cookie "sid" "a.com"])
         (ContextId 1)) init in
  map fst (history run.2) =
    [NewPage (ContextId 1); PageGoto (PageId 0) "http://a.com/x" 5000;
     ContextCookies (ContextId 1); PageClose (PageId 0);
     NewPage (ContextId 1); PageGoto (PageId 4) "http://b.com/z" 5000;
     ContextCookies (ContextId 1); PageClose (PageId 4)]
  ∧ all_cookies run.2 = [Demo.cookie "sid" "a.com"].
Proof. vm_compute. done. Qed.

(** ** Temporary pages are scoped *)

Definition page_event (ev : Event) : bool :=
  match ev.1 with NewPage _ | PageClose _ => true | _ => false end.

(** [Scoped env h evs]: in the events [evs] that follow the history [h],
    every page that [new_page] hands out is closed before any other page is
    requested or closed, and nothing else is ever closed.  A request that
    raises opens nothing. *)
Inductive Scoped (env : Env) : list Event → list Event → Prop :=
| scoped_nil h : Scoped env h []
| scoped_other h ev evs :
    page_event ev = false →
    Scoped env (h ++ [ev]) evs →
    Scoped env h (ev :: evs)
| scoped_refused h c e evs :
    Scoped env (h ++ [(NewPage c, Raised e)]) evs →
    Scoped env h ((NewPage c, Raised e) :: evs)
| scoped_session h c p mid o evs :
    env_new_page env h c = Ok p →
    Forall (λ ev, page_event ev = false) mid →
    Scoped env (h ++ (NewPage c, Returned) :: mid ++ [(PageClose p, o)]) evs →
    Scoped env h ((NewPage c, Returned) :: mid ++ (PageClose p, o) :: evs).

Lemma Scoped_app env h evs1 evs2 :
  Scoped env h evs1 → Scoped env (h ++ evs1) evs2 → Scoped env h (evs1 ++ evs2).
Proof.
  induction 1 as [h|h ev evs Hev _ IH|h c e evs _ IH|h c p mid o evs Hp Hmid _ IH];
    intros H2.
  - by rewrite app_nil_r in H2.
  - cbn. apply scoped_other; [done|]. apply IH.
    by rewrite <- app_assoc.
  - cbn. apply scoped_refused. apply IH. by rewrite <- app_assoc.
  - cbn. rewrite <- app_assoc. cbn. apply scoped_session; [done..|].
    apply IH. rewrite <- app_assoc. cbn. by rewrite <- app_assoc.
Qed.

Lemma Scoped_others env h evs :
  Forall (λ ev, page_event ev = false) evs → Scoped env h evs.
Proof.
  intros H. revert h. induction H as [|ev evs Hev _ IH]; intros h.
  - constructor.
  - by apply scoped_other.
Qed.

Definition scoped_run (env : Env) : relation State :=
  λ s s', ∃ evs, history s' = history s ++ evs ∧ Scoped env (history s) evs.

Global Instance scoped_run_preorder env : PreOrder (scoped_run env).
Proof.
  split.
  - intros s. exists []. rewrite app_nil_r. split; [done|constructor].
  - intros s1 s2 s3 (evs & Hh & Hs) (evs' & Hh' & Hs').
    exists (evs ++ evs'). split; [by rewrite Hh', Hh, app_assoc|].
    apply Scoped_app; [done|]. by rewrite <- Hh.
Qed.

Lemma scoped_run_others env {A : Type} (m : M A) :
  emits (λ ev, page_event ev = false) m → steps (scoped_run env) m.
Proof.
  intros Hm s. destruct (Hm s) as (evs & Hevs & HP).
  exists evs. split; [done|]. by apply Scoped_others.
Qed.

Ltac no_page_event :=
  repeat (grows_step || (apply emits_extern; intros ?; reflexivity)).

Lemma scoped_session_run env c {A : Type} (body : Page → M A) s :
  (∀ p, emits (λ ev, page_event ev = false) (body p)) →
  scoped_run env s
    ((temp_page <- new_page env c ;;
      try_finally (body temp_page) (page_close env temp_page)) s).2.
Proof.
  intros Hbody. unfold new_page. rewrite bind_extern.
  destruct (env_new_page env (history s) c) as [p|e] eqn:Hpage; cbn.
  - unfold try_finally.
    destruct (Hbody p (add_event (NewPage c, Returned) s)) as (mid & Hmid & HP).
    destruct (body p (add_event (NewPage c, Returned) s)) as [r s1]; cbn in Hmid.
    unfold page_close, extern.
    exists ((NewPage c, Returned) :: mid
            ++ (PageClose p, outcome (env_page_close env (history s1) p)) :: []).
    split.
    + destruct (env_page_close env (history s1) p) as [[]|e]; cbn;
        by rewrite Hmid, <- !app_assoc.
    + apply scoped_session; [done..|constructor].
  - exists [(NewPage c, Raised e)]. split; [done|].
    apply scoped_refused. constructor.
Qed.

Lemma scoped_harvest_domain env c page_url domain :
  steps (scoped_run env) (harvest_domain env c page_url domain).
Proof.
  intros s. unfold harvest_domain.
  apply (scoped_session_run env c). intros p.
  unfold goto, context_cookies. no_page_event.
Qed.

Lemma scoped_replay_cookies env c unique_cookies :
  steps (scoped_run env) (replay_cookies env c unique_cookies).
Proof.
  intros s. unfold replay_cookies.
  apply (scoped_session_run env c). intros p.
  unfold install_domain, goto, context_add_cookies. no_page_event.
Qed.

Ltac scoped_go env :=
  steps_go;
  lazymatch goal with
  | |- steps _ (harvest_domain _ _ _ _) => apply scoped_harvest_domain
  | |- steps _ (replay_cookies _ _ _) => apply scoped_replay_cookies
  | |- steps _ _ => apply (scoped_run_others env); no_page_event
  end.

(** X7.  In context resolution, cookie federation included, temporary
    pages are scoped: each page that [new_page] hands out is closed, by a
    [close] on that very page, before another page is requested, whatever
    raises in between; a request that raises opens nothing; no other page is
    closed.  At most one temporary page is open at any time, and none is
    left open at the end. *)
Theorem temporary_pages_scoped env playwright_proxy user_agent s :
  ∃ evs,
    history (create_browser_context env playwright_proxy user_agent s).2
      = history s ++ evs
    ∧ Scoped env (history s) evs.
Proof.
  revert s.
  change (steps (scoped_run env)
            (create_browser_context env playwright_proxy user_agent)).
  unfold create_browser_context, context_cookies, federate_cookies, http_get,
    harvest_target.
  scoped_go env.
Qed.

(** ** Path resolution and the handshake address *)

(** X8.  [_get_browser_path] prefers the configured path: when
    [CUSTOM_BROWSER_PATH] is not empty and names a file, it is returned and
    the launcher is not asked.  Otherwise (empty, or not a file) the
    launcher's detection decides: its first path is returned once the
    launcher has described it, an empty list gives the "no browser found"
    [RuntimeError], and an exception of the launcher is passed on.  The file
    test is only made for a non-empty configured path. *)
Theorem get_browser_path_resolution cfg env s :
  let custom := CUSTOM_BROWSER_PATH cfg in
  let h := history s
           ++ (if PyStr.truthy custom then [(OsIsFile custom, Returned)] else []) in
  if PyStr.truthy custom && env_isfile env (history s) custom
  then (get_browser_path cfg env s).1 = Ok custom
       ∧ history (get_browser_path cfg env s).2 = h
  else match env_detect_browser_paths env h with
       | Raise e => (get_browser_path cfg env s).1 = Raise e
       | Ok [] => (get_browser_path cfg env s).1 = Raise (RuntimeError NoBrowserFound)
       | Ok (browser_path :: _) =>
           (get_browser_path cfg env s).1 =
           match env_get_browser_info env (h ++ [(DetectBrowserPaths, Returned)])
                   browser_path with
           | Ok _ => Ok browser_path
           | Raise e => Raise e
           end
       end.
Proof.
  cbn zeta. unfold get_browser_path, bind, extern, logger, modify, ret, raise.
  destruct (PyStr.truthy (CUSTOM_BROWSER_PATH cfg)); cbn.
  - destruct (env_isfile env (history s) (CUSTOM_BROWSER_PATH cfg)); cbn; [done|].
    destruct (env_detect_browser_paths env _) as [[|path paths]|e]; cbn; try done.
    by destruct (env_get_browser_info env _ path) as [[name version]|e].
  - rewrite app_nil_r.
    destruct (env_detect_browser_paths env _) as [[|path paths]|e]; cbn; try done.
    by destruct (env_get_browser_info env _ path) as [[name version]|e].
Qed.

Ltac ws_leaf :=
  repeat split; try done;
  first
    [ by intros [? [=]]
    | intros _; by eexists
    | intros _; eexists (mkResponse _ _ _), _, _; by repeat split
    | intros ? [= <-]; by eexists _, _
    | intros (?&?&?&?&?&?&?&?); simplify_eq/=; congruence
    | intros; simplify_eq/=;
      repeat match goal with
             | H1 : assoc_get ?k ?f = _, H2 : context [assoc_get ?k ?f] |- _ =>
                 rewrite H1 in H2; cbn in H2
             end;
      congruence ].

(** X9.  [_get_browser_websocket_url] makes one request, with timeout 10,
    and succeeds on exactly the answers on which the readiness probe says
    "ready": status 200 and an object body whose [webSocketDebuggerUrl] is
    truthy, which is the value returned.  Every other answer raises: a
    request that raises passes its exception on unchanged, another status
    gives the HTTP [RuntimeError], a missing or empty field the "no
    webSocketDebuggerUrl" [RuntimeError]. *)
Theorem get_browser_websocket_url_outcome env port s :
  let answer := env_http_get env (history s) JsonVersion port 10 in
  history (get_browser_websocket_url env port s).2
    = history s ++ [(HttpGet JsonVersion port 10, outcome answer)]
  ∧ ((∃ ws_url, (get_browser_websocket_url env port s).1 = Ok ws_url)
     ↔ ready_answer answer)
  ∧ (∀ ws_url, (get_browser_websocket_url env port s).1 = Ok ws_url →
       ∃ response fields,
         answer = Ok response ∧ json response = Ok (JObj fields)
         ∧ assoc_get ws_key fields = Some ws_url)
  ∧ (∀ e, answer = Raise e → (get_browser_websocket_url env port s).1 = Raise e)
  ∧ (∀ response, answer = Ok response → status_code response ≠ 200 →
       (get_browser_websocket_url env port s).1
       = Raise (RuntimeError (HttpStatus (status_code response) (text response))))
  ∧ (∀ response fields,
       answer = Ok response → status_code response = 200 →
       json response = Ok (JObj fields) →
       json_truthy (default JNull (assoc_get ws_key fields)) = false →
       (get_browser_websocket_url env port s).1 = Raise (RuntimeError NoWebSocketUrl)).
Proof.
  cbn zeta. unfold ready_answer.
  unfold get_browser_websocket_url, try_except, bind, http_get, extern, lift,
    logger, modify, ret, raise.
  destruct (env_http_get env (history s) JsonVersion port 10)
    as [[code body txt]|e]; cbn; [|ws_leaf].
  case_decide as Hcode; cbn; [|ws_leaf].
  destruct body as [data|e]; cbn; [|ws_leaf].
  destruct data as [| | | | |fields]; cbn; try ws_leaf.
  destruct (assoc_get ws_key fields) as [ws_url|] eqn:Hws; cbn; [|ws_leaf].
  destruct (json_truthy ws_url) eqn:Htruthy; cbn; ws_leaf.
Qed.

(** ** A handle that reports itself disconnected *)

(** X10.  [_connect_via_cdp] stores the handle before it checks it.  So
    when the probe says "ready", the handshake address is fetched and
    [connect_over_cdp] returns a handle that reports itself disconnected,
    [launch_and_connect] fails with the "CDP connection failed"
    [RuntimeError], and its cleanup closes that very handle and forgets
    it. *)
Theorem disconnected_handle_is_closed
    cfg env playwright_proxy user_agent headless s s1 s2 ws_url b :
  test_cdp_connection env (Some (CDP_DEBUG_PORT cfg))
    (set_debug_port (Some (CDP_DEBUG_PORT cfg)) s) = (Ok true, s1) →
  get_browser_websocket_url env (Some (CDP_DEBUG_PORT cfg))
    (add_log (Info, MsgAttachExisting (Some (CDP_DEBUG_PORT cfg))) s1)
    = (Ok ws_url, s2) →
  env_connect_over_cdp env (history s2) ws_url = Ok b →
  env_is_connected env (history s2 ++ [(ConnectOverCdp ws_url, Returned)]) b = false →
  ∃ s' o,
    launch_and_connect cfg env playwright_proxy user_agent headless s
      = (Raise (RuntimeError CdpConnectFailed), s')
    ∧ (BrowserClose b, o) ∈ history s'
    ∧ browser s' = None.
Proof.
  intros Hprobe Hws Hconn Hdisc.
  destruct (launch_and_connect_after_probe cfg env playwright_proxy user_agent
              headless s) as (running & s1' & Hprobe' & _ & Hport & _ & ->).
  rewrite Hprobe in Hprobe'. injection Hprobe' as <- <-.
  set (failed := add_log (Error, MsgConnectFailed (RuntimeError CdpConnectFailed))
                   (set_browser (Some b)
                      (add_event (ConnectOverCdp ws_url, Returned)
                         (add_log (Info, MsgConnecting ws_url) s2)))).
  assert (connect_via_cdp env
            (add_log (Info, MsgAttachExisting (Some (CDP_DEBUG_PORT cfg))) s1)
          = (Raise (RuntimeError CdpConnectFailed), failed)) as Hfail.
  { unfold connect_via_cdp, try_except.
    erewrite bind_ok; [|reflexivity]. cbn [debug_port add_log]. rewrite Hport.
    rewrite (bind_ok _ _ _ _ _ Hws), bind_logger, bind_extern.
    cbn [history add_log]. rewrite Hconn.
    unfold bind, modify, peek, logger, raise. cbn. by rewrite Hdisc. }
  destruct (cleanup_spec cfg env
              (add_log (Error, MsgStartupFailed (RuntimeError CdpConnectFailed)) failed))
    as (s' & evs & Hclean & Hh & Hcalls & Hb & _).
  assert (BrowserClose b ∈ map fst evs) as Hin.
  { rewrite Hcalls. unfold cleanup_calls. cbn.
    rewrite !elem_of_app. right. by left. }
  apply list_elem_of_fmap in Hin as ([call o] & Hcall & Hin). cbn in Hcall. subst call.
  exists s', o. split; [|split; [|done]].
  - unfold try_except, after_probe, reach_browser.
    erewrite bind_raise; [|rewrite bind_logger; exact Hfail].
    unfold startup_failed. rewrite bind_logger.
    by rewrite (bind_ok _ _ _ _ _ Hclean).
  - rewrite Hh. apply elem_of_app. by right.
Qed.

(** Witness for X10. *)
Lemma disconnected_handle_is_closed_witness :
  ∃ s' o,
    launch_and_connect (Demo.cfg false) disconnected_env None None false init
      = (Raise (RuntimeError CdpConnectFailed), s')
    ∧ (BrowserClose (BrowserId 1), o) ∈ history s'
    ∧ browser s' = None.
Proof.
  eapply (disconnected_handle_is_closed (Demo.cfg false) disconnected_env
            None None false init); reflexivity.
Defined.

(** ** The launch *)

(** X11.  Once the launcher has started the process and its readiness wait
    has succeeded, [_launch_browser] returns normally and has recorded the
    process handle, whatever the metadata endpoint answers to the probe
    that follows the one-second pause: a failed probe there is only
    logged. *)
Theorem launch_browser_tolerates_failed_probe cfg env browser_path headless s :
  (SAVE_LOGIN_STATE cfg = true →
   (∀ h, ∃ cwd, env_getcwd env h = Ok cwd) ∧ (∀ h d, env_makedirs env h d = Ok tt)) →
  (∀ h dir, ∃ process,
     env_launch_browser env h browser_path (debug_port s) headless dir = Ok process) →
  (∀ h, env_wait_for_browser_ready env h (debug_port s) (BROWSER_LAUNCH_TIMEOUT cfg)
        = Ok true) →
  (∀ h, env_sleep env h 1 = Ok tt) →
  ∃ s' process,
    launch_browser cfg env browser_path headless s = (Ok tt, s')
    ∧ browser_process s' = Some process.
Proof.
  intros Hdir Hlaunch Hwait Hsleep. unfold launch_browser.
  assert (∀ st ready st',
            test_cdp_connection env (debug_port s) st = (Ok ready, st') →
            browser_process st' = browser_process st) as Hkeep.
  { intros st ready st' Hrun.
    pose proof (keeps_test_cdp_connection browser_process
                  ltac:(done) ltac:(done) env (debug_port s) st) as Hk.
    unfold keeps in Hk. by rewrite Hrun in Hk. }
  destruct (SAVE_LOGIN_STATE cfg) eqn:Hsave.
  - destruct (Hdir eq_refl) as [Hcwd Hmk].
    destruct (Hcwd (history s)) as [cwd Hcwd'].
    unfold bind, extern, gets, modify, logger, ret, raise, when.
    rewrite Hcwd'. cbn -[test_cdp_connection]. rewrite Hmk.
    cbn -[test_cdp_connection].
    match goal with
    | |- context [env_launch_browser env ?h ?a ?p ?b ?d] =>
        destruct (Hlaunch h d) as [process Hproc]; rewrite Hproc
    end.
    cbn -[test_cdp_connection]. rewrite Hwait. cbn -[test_cdp_connection].
    rewrite Hsleep. cbn -[test_cdp_connection].
    match goal with
    | |- context [test_cdp_connection env ?p ?st] =>
        destruct (test_cdp_connection_spec env p st) as (ready & st' & Hrun & _);
        rewrite Hrun; apply Hkeep in Hrun
    end.
    destruct ready; cbn; eexists _, process; (split; [reflexivity|]);
      by rewrite ?Hrun.
  - unfold bind, extern, gets, modify, logger, ret, raise, when.
    cbn -[test_cdp_connection].
    match goal with
    | |- context [env_launch_browser env ?h ?a ?p ?b ?d] =>
        destruct (Hlaunch h d) as [process Hproc]; rewrite Hproc
    end.
    cbn -[test_cdp_connection]. rewrite Hwait. cbn -[test_cdp_connection].
    rewrite Hsleep. cbn -[test_cdp_connection].
    match goal with
    | |- context [test_cdp_connection env ?p ?st] =>
        destruct (test_cdp_connection_spec env p st) as (ready & st' & Hrun & _);
        rewrite Hrun; apply Hkeep in Hrun
    end.
    destruct ready; cbn; eexists _, process; (split; [reflexivity|]);
      by rewrite ?Hrun.
Qed.

(** Witness for X11: the launcher reports ready, nothing answers the probe. *)
Lemma launch_browser_tolerates_failed_probe_witness :
  ∃ s' process,
    launch_browser (Demo.cfg false)
      (Demo.env Demo.refused Demo.refused ["/usr/bin/chrome"] true [] [])
      "/usr/bin/chrome" false (set_debug_port (Some 9222) init) = (Ok tt, s')
    ∧ browser_process s' = Some process.
Proof.
  apply (launch_browser_tolerates_failed_probe (Demo.cfg false)
           (Demo.env Demo.refused Demo.refused ["/usr/bin/chrome"] true [] [])
           "/usr/bin/chrome" false (set_debug_port (Some 9222) init)).
  - intros _. split; [intros h; by eexists | reflexivity].
  - intros h dir. by eexists.
  - reflexivity.
  - reflexivity.
Defined.

(** ** The helper methods *)

(** X12.  [add_cookies], [get_cookies] and [add_stealth_script] never
    raise.  Without an active context they call nothing.  With one,
    [add_cookies] makes its one call and swallows its failure;
    [get_cookies] returns the jar, or the empty list when the read raises;
    [add_stealth_script] looks the script up and installs it only when the
    file exists.  None of them changes [browser] or [browser_context]. *)
Theorem helper_methods_never_raise env s :
  (∀ cookies, ∃ s',
     add_cookies env cookies s = (Ok tt, s')
     ∧ browser s' = browser s ∧ browser_context s' = browser_context s
     ∧ map fst (drop (length (history s)) (history s')) =
         match browser_context s with
         | Some c => [ContextAddCookies c cookies]
         | None => []
         end)
  ∧ (∃ s',
       get_cookies env s =
         (Ok match browser_context s with
             | Some c => match env_cookies env (history s) c with
                         | Ok jar => jar
                         | Raise _ => []
                         end
             | None => []
             end, s')
       ∧ browser s' = browser s ∧ browser_context s' = browser_context s)
  ∧ (∀ script_path, ∃ s',
       add_stealth_script env script_path s = (Ok tt, s')
       ∧ browser s' = browser s ∧ browser_context s' = browser_context s
       ∧ map fst (drop (length (history s)) (history s')) =
           match browser_context s with
           | Some c =>
               OsPathExists script_path
               :: (if env_path_exists env (history s) script_path
                   then [AddInitScript c script_path] else [])
           | None => []
           end).
Proof.
  assert (∀ (h t : list Event), drop (length h) (h ++ t) = t) as Hdrop
    by (intros; by rewrite drop_app_length).
  assert (∀ h : list Event, drop (length h) h = []) as Hdrop0
    by (intros; by rewrite drop_all).
  unfold add_cookies, get_cookies, add_stealth_script, context_add_cookies,
    context_cookies, try_except, bind, gets, extern, logger, modify, ret, when.
  destruct (browser_context s) as [c|] eqn:Hc; cbn.
  - split; [|split].
    + intros cookies.
      destruct (env_add_cookies env (history s) c cookies) as [[]|e]; cbn;
        eexists; (split; [reflexivity|]); cbn; by rewrite Hdrop.
    + destruct (env_cookies env (history s) c) as [jar|e]; cbn; by eexists.
    + intros script_path.
      destruct (env_path_exists env (history s) script_path); cbn.
      * destruct (env_add_init_script env _ c script_path) as [[]|e]; cbn;
          eexists; (split; [reflexivity|]); cbn;
          by rewrite <- app_assoc, Hdrop.
      * eexists; (split; [reflexivity|]); cbn. by rewrite Hdrop.
  - split; [|split]; intros; eexists; (split; [reflexivity|]); by rewrite ?Hdrop0.
Qed.

(** ** The replay reaches every cookie *)

Lemma group_by_domain_elem (unique_cookies : list Cookie) (ck : Cookie) :
  ck ∈ unique_cookies →
  ∃ cs, (replay_domain ck, cs) ∈ group_by_domain unique_cookies ∧ ck ∈ cs.
Proof.
  intros Hin.
  exists (filter (λ c', replay_domain c' = replay_domain ck) unique_cookies).
  assert (ck ∈ filter (λ c', replay_domain c' = replay_domain ck) unique_cookies)
    as Hc by (by apply list_elem_of_filter).
  split; [|done].
  rewrite (groups_get_elem_of _ _ _ (group_by_domain_keys_NoDup unique_cookies)),
    group_by_domain_get.
  destruct (filter _ unique_cookies); [by apply elem_of_nil in Hc | done].
Qed.

(** What the replay does for the group [cookies] of [domain]: it offers the
    group to [add_cookies], unless both navigations raised. *)
Definition group_attempted (c : BrowserContext) (p : Page) (domain : string)
    (cookies : list Cookie) (evs : list Event) : Prop :=
  (∃ o, (ContextAddCookies c cookies, o) ∈ evs)
  ∨ (∃ e1 e2, (PageGoto p ("https://" +:+ domain) 5000, Raised e1) ∈ evs
              ∧ (PageGoto p ("http://" +:+ domain) 5000, Raised e2) ∈ evs).

Lemma group_attempted_mono c p domain cookies evs evs' :
  evs ⊆ evs' → group_attempted c p domain cookies evs →
  group_attempted c p domain cookies evs'.
Proof.
  intros Hsub [[o Ho] | (e1 & e2 & H1 & H2)]; [left | right]; eauto 6.
Qed.

Lemma DomainTrace_attempted c p domain cookies evs :
  DomainTrace c p (domain, cookies) evs → group_attempted c p domain cookies evs.
Proof.
  inversion 1 as [? ? ? Hs | ? ? pre post Hs Hf]; subst.
  - inversion Hs; subst. left. eexists. by right; left.
  - inversion Hs; subst.
    + inversion Hf; subst.
      * right. eexists _, _. split; [by left | by right; left].
      * left. eexists. by right; right; left.
    + left. eexists. by right; left.
Qed.

Lemma InstallTrace_attempted c p groups evs :
  InstallTrace c p groups evs →
  ∀ domain cookies, (domain, cookies) ∈ groups →
                    group_attempted c p domain cookies evs.
Proof.
  induction 1 as [|entry rest evs evs' Hd _ IH]; intros domain cookies Hin.
  - by apply elem_of_nil in Hin.
  - apply elem_of_cons in Hin as [<- | Hin].
    + eapply group_attempted_mono; [|by apply DomainTrace_attempted].
      intros ev ?. apply elem_of_app. by left.
    + eapply group_attempted_mono; [|by apply IH].
      intros ev ?. apply elem_of_app. by right.
Qed.

(** X13.  Once its temporary page is open, the replay skips no cookie:
    every merged cookie belongs to a group that is handed to [add_cookies],
    unless both the [https] and the [http] navigation to that cookie's
    domain raised.  Failures for other domains make no difference. *)
Theorem replay_skips_no_cookie env c unique_cookies s p ck :
  env_new_page env (history s) c = Ok p →
  ck ∈ unique_cookies →
  ∃ cookies,
    ck ∈ cookies
    ∧ group_attempted c p (replay_domain ck) cookies
        (history (replay_cookies env c unique_cookies s).2).
Proof.
  intros Hpage Hin.
  destruct (group_by_domain_elem unique_cookies ck Hin) as (cookies & Hgroup & Hck).
  exists cookies. split; [done|].
  unfold replay_cookies, new_page, page_close, try_finally.
  erewrite bind_ok; [|unfold extern; by rewrite Hpage].
  destruct (install_loop_trace c p env (group_by_domain unique_cookies)
              (add_event (NewPage c, Returned) s))
    as (s1 & evs & Hrun & Hh & Hi).
  rewrite (bind_ok _ _ _ _ _ Hrun). unfold logger, modify, extern.
  eapply group_attempted_mono;
    [|exact (InstallTrace_attempted _ _ _ _ Hi _ _ Hgroup)].
  intros ev Hev.
  destruct (env_page_close env _ p) as [[]|e]; cbn; rewrite Hh;
    rewrite !elem_of_app; auto.
Qed.

(** Witness for X13. *)
Lemma replay_skips_no_cookie_witness :
  ∃ cookies,
    Demo.cookie "sid" "b.com" ∈ cookies
    ∧ group_attempted (ContextId 1) (PageId 0)
        (replay_domain (Demo.cookie "sid" "b.com")) cookies
        (history
           (replay_cookies (Demo.env Demo.refused Demo.refused [] false [] [])
              (ContextId 1) [Demo.cookie "sid" ".a.com"; Demo.cookie "sid" "b.com"]
              init).2).
Proof.
  apply (replay_skips_no_cookie (Demo.env Demo.refused Demo.refused [] false [] [])
           (ContextId 1) [Demo.cookie "sid" ".a.com"; Demo.cookie "sid" "b.com"]
           init (PageId 0)).
  - reflexivity.
  - right. left.
Defined.

(** ** The replay when nothing fails *)

(** The cookies of the [add_cookies] calls that returned, in order. *)
Definition installed_cookies (evs : list Event) : list Cookie :=
  concat (map (λ ev, match ev with
                     | (ContextAddCookies _ cookies, Returned) => cookies
                     | _ => []
                     end) evs).

Definition secure_install (c : BrowserContext) (p : Page)
    (entry : string * list Cookie) : list Event :=
  [(PageGoto p ("https://" +:+ entry.1) 5000, Returned);
   (ContextAddCookies c entry.2, Returned)].

Lemma concat_group_append (k : string) (ck : Cookie) groups :
  concat (group_append k ck groups).*2 ≡ₚ concat groups.*2 ++ [ck].
Proof.
  induction groups as [|[d cs] rest IH]; cbn; [done|].
  case_decide; cbn.
  - rewrite <- !app_assoc. f_equiv. apply Permutation_app_comm.
  - rewrite IH. by rewrite app_assoc.
Qed.

Lemma concat_group_by_domain (l : list Cookie) :
  concat (group_by_domain l).*2 ≡ₚ l.
Proof.
  induction l as [|ck l IH] using rev_ind; [done|].
  by rewrite group_by_domain_snoc, concat_group_append, IH.
Qed.

Lemma installed_cookies_app evs evs' :
  installed_cookies (evs ++ evs') = installed_cookies evs ++ installed_cookies evs'.
Proof. unfold installed_cookies. by rewrite map_app, concat_app. Qed.

Lemma installed_cookies_secure c p groups :
  installed_cookies (concat (map (secure_install c p) groups)) = concat groups.*2.
Proof.
  induction groups as [|[d cs] rest IH]; [done|].
  cbn [map concat]. rewrite installed_cookies_app, IH.
  unfold installed_cookies. cbn. by rewrite app_nil_r.
Qed.

Section ReplaySucceeds.

Variable env : Env.
Variable c : BrowserContext.
Variable p : Page.

Hypothesis goto_ok : ∀ h url, env_goto env h p url 5000 = Ok tt.
Hypothesis add_cookies_ok : ∀ h cookies, env_add_cookies env h c cookies = Ok tt.

Lemma install_loop_succeeds groups : ∀ s,
  ∃ s',
    for_each groups (install_domain env c p) s = (Ok tt, s')
    ∧ history s' = history s ++ concat (map (secure_install c p) groups).
Proof.
  induction groups as [|[d cs] rest IH]; intros s.
  - exists s. by rewrite app_nil_r.
  - cbn [for_each].
    assert (install_domain env c p (d, cs) s =
            (Ok tt, add_event (ContextAddCookies c cs, Returned)
                      (add_event (PageGoto p ("https://" +:+ d) 5000, Returned) s)))
      as Hrun.
    { unfold install_domain, try_except, bind, goto, context_add_cookies, extern.
      rewrite goto_ok. cbn. by rewrite add_cookies_ok. }
    rewrite (bind_ok _ _ _ _ _ Hrun).
    destruct (IH (add_event (ContextAddCookies c cs, Returned)
                    (add_event (PageGoto p ("https://" +:+ d) 5000, Returned) s)))
      as (s' & Hrun' & Hh').
    exists s'. split; [done|]. rewrite Hh'. cbn. by rewrite <- !app_assoc.
Qed.

End ReplaySucceeds.

(** X14.  When the temporary page opens and every navigation and every
    installation on it succeeds, the replay makes, for every domain of the
    merged cookies in the order of first appearance, one [https]
    navigation followed by one [add_cookies] call with the merged cookies
    of that domain, no [http] navigation, then closes the page; the
    cookies it installs are the merged cookies, each exactly once. *)
Theorem replay_installs_each_cookie_once env c unique_cookies s p :
  env_new_page env (history s) c = Ok p →
  (∀ h url, env_goto env h p url 5000 = Ok tt) →
  (∀ h cookies, env_add_cookies env h c cookies = Ok tt) →
  ∃ o,
    history (replay_cookies env c unique_cookies s).2 =
      history s
      ++ [(NewPage c, Returned)]
      ++ concat (map (secure_install c p) (replay_plan unique_cookies))
      ++ [(PageClose p, o)]
    ∧ (∀ d cs, (d, cs) ∈ replay_plan unique_cookies →
         ∀ ck, ck ∈ cs ↔
               ck ∈ unique_cookies ∧ without_leading_dots (get_domain ck) d)
    ∧ installed_cookies
        (drop (length (history s)) (history (replay_cookies env c unique_cookies s).2))
      ≡ₚ unique_cookies.
Proof.
  intros Hpage Hgoto Hadd.
  unfold replay_cookies, new_page, page_close, try_finally.
  erewrite bind_ok; [|unfold extern; by rewrite Hpage].
  destruct (install_loop_succeeds env c p Hgoto Hadd (group_by_domain unique_cookies)
              (add_event (NewPage c, Returned) s)) as (s1 & Hrun & Hh).
  rewrite (bind_ok _ _ _ _ _ Hrun). unfold logger, modify, extern. cbn in Hh.
  exists (outcome (env_page_close env (history s1) p)).
  rewrite group_by_domain_plan in Hh.
  match goal with
  | |- history ?X = ?rhs ∧ _ => assert (history X = rhs) as Hhist
  end.
  { cbn. destruct (env_page_close env (history s1) p) as [[]|e]; cbn;
      by rewrite Hh, <- !app_assoc. }
  split; [exact Hhist|]. split; [apply replay_plan_groups|].
  rewrite Hhist, drop_app_length.
  rewrite !installed_cookies_app, installed_cookies_secure.
  unfold installed_cookies at 1 2. cbn. rewrite app_nil_r.
  rewrite <- group_by_domain_plan. apply concat_group_by_domain.
Qed.

(** Witness for X14. *)
Lemma replay_installs_each_cookie_once_witness :
  let cookies := [Demo.cookie "sid" ".a.com"; Demo.cookie "sid" "b.com";
                  Demo.cookie "tok" "a.com"] in
  let run := replay_cookies (Demo.env Demo.refused Demo.refused [] false [] [])
               (ContextId 1) cookies init in
  ∃ o,
    history run.2 =
      history init
      ++ [(NewPage (ContextId 1), Returned)]
      ++ concat (map (secure_install (ContextId 1) (PageId 0)) (replay_plan cookies))
      ++ [(PageClose (PageId 0), o)]
    ∧ (∀ d cs, (d, cs) ∈ replay_plan cookies →
         ∀ ck, ck ∈ cs ↔ ck ∈ cookies ∧ without_leading_dots (get_domain ck) d)
    ∧ installed_cookies (drop (length (history init)) (history run.2)) ≡ₚ cookies.
Proof.
  cbn zeta.
  apply (replay_installs_each_cookie_once
           (Demo.env Demo.refused Demo.refused [] false [] []) (ContextId 1)
           [Demo.cookie "sid" ".a.com"; Demo.cookie "sid" "b.com";
            Demo.cookie "tok" "a.com"] init (PageId 0)); reflexivity.
Defined.

(** The calls of the witness's run: [a.com] first, with both of its
    cookies, then [b.com]. *)
Example replay_in_first_appearance_order :
  map fst
    (history
       (replay_cookies (Demo.env Demo.refused Demo.refused [] false [] [])
          (ContextId 1)
          [Demo.cookie "sid" ".a.com"; Demo.cookie "sid" "b.com";
           Demo.cookie "tok" "a.com"] init).2)
  = [NewPage (ContextId 1);
     PageGoto (PageId 0) "https://a.com" 5000;
     ContextAddCookies (ContextId 1)
       [Demo.cookie "sid" ".a.com"; Demo.cookie "tok" "a.com"];
     PageGoto (PageId 0) "https://b.com" 5000;
     ContextAddCookies (ContextId 1) [Demo.cookie "sid" "b.com"];
     PageClose (PageId 0)].
Proof. vm_compute. reflexivity. Qed.

(** ** Federation without targets *)

(** The targets a listing answer yields, if it yields any. *)
Definition listing (answer : Res Response) : option (list Json) :=
  match answer with
  | Ok response =>
      if decide (status_code response = 200) then
        match json response with
        | Ok targets =>
            match json_iter targets with
            | Ok items => Some items
            | Raise _ => None
            end
        | Raise _ => None
        end
      else None
  | Raise _ => None
  end.

(** X15.  When the target listing cannot be had (the request raises, the
    status is not 200, the body cannot be decoded or is not iterable) or
    is empty, the federation returns normally having made that one request
    and nothing else: no page is opened, no cookie is installed. *)
Theorem federation_needs_targets env c s :
  listing (env_http_get env (history s) JsonList (debug_port s) 2) = None
  ∨ listing (env_http_get env (history s) JsonList (debug_port s) 2) = Some [] →
  ∃ s',
    federate_cookies env c s = (Ok tt, s')
    ∧ history s' =
        history s
        ++ [(HttpGet JsonList (debug_port s) 2,
             outcome (env_http_get env (history s) JsonList (debug_port s) 2))].
Proof.
  unfold listing, federate_cookies, try_except, http_get.
  rewrite (bind_ok (gets debug_port) _ s (debug_port s) s eq_refl), bind_extern.
  destruct (env_http_get env (history s) JsonList (debug_port s) 2)
    as [[code body txt]|e]; cbn; [|by eexists].
  case_decide; cbn; [|intros _; by eexists].
  unfold bind, lift, modify, gets, logger, ret.
  destruct body as [targets|e]; cbn; [|intros _; by eexists].
  destruct (json_iter targets) as [[|item items]|e]; cbn.
  - intros _. by eexists.
  - by intros [|].
  - intros _. by eexists.
Qed.

(** Witness for X15: the listing request is refused. *)
Lemma federation_needs_targets_witness :
  ∃ s',
    federate_cookies (Demo.env Demo.refused Demo.refused [] false [] [])
      (ContextId 1) (set_debug_port (Some 9222) init) = (Ok tt, s')
    ∧ history s' =
        history (set_debug_port (Some 9222) init)
        ++ [(HttpGet JsonList (Some 9222) 2, Raised HttpxConnectError)].
Proof.
  apply (federation_needs_targets (Demo.env Demo.refused Demo.refused [] false [] [])
           (ContextId 1) (set_debug_port (Some 9222) init)).
  left. reflexivity.
Defined.
